(** * Response validation of kin-openapi (package openapi3filter)

    A shallow embedding of [ValidateResponse], [getSchemaIdentifier] and
    [prependSpaceIfNeeded] (validate_response.go), together with the part of
    the data model of package openapi3 that these functions read.

    Conventions of the embedding.
    - A Go pointer is an [option]: [None] is nil.  Reading a field through a
      nil pointer is a run-time panic; the panic is an explicit outcome and
      records the place of the dereference.
    - A Go map is a [gmap]; indexing a map of pointers gives nil for a key
      that is absent ([index]).
    - [ValidateResponse] receives a pointer to its input and writes the field
      [Body] of the struct it points to.  The struct is threaded as state,
      together with the list of calls made to the collaborators of the
      function (schema engine, body decoder, body stream), in call order.
    - The collaborators and the functions of the Go library are not part of
      the embedded source: they are the fields of the classes [GoTypes] and
      [Collaborators]. *)

From Stdlib Require Import ZArith List.
From Stdlib.Strings Require Import Ascii String Byte.
From stdpp Require Import base option list strings gmap sorting.

Local Open Scope Z_scope.

(** ** Values the embedded code does not look into *)

Class GoTypes := {
  (** values of the interface [error] *)
  error : Type;
  (** values of [interface{}]: a header value or a decoded body *)
  Any : Type;
  (** a Go string seen as an [interface{}] *)
  of_string : string -> Any;
  (** the fields of openapi3.Schema other than [Title] *)
  Constraints : Type;
  (** openapi3.Encoding *)
  Encoding : Type;
  (** the type of [Options.customSchemaErrorFunc] *)
  SchemaErrorFunc : Type;
}.

(** A byte stream ([io.ReadCloser]): the bytes it delivers and the error, if
    any, that ends the delivery instead of EOF. *)
Record ReadCloser `{GoTypes} := {
  content : list byte;
  failure : option error;
}.

Section openapi3.
Context `{GoTypes}.

(** ioutil.ReadAll *)
Definition ReadAll (r : ReadCloser) : list byte * option error :=
  (content r, failure r).

(** ioutil.NopCloser(bytes.NewReader(data)) *)
Definition NopCloser (data : list byte) : ReadCloser :=
  {| content := data; failure := None |}.

Record Schema := {
  Title : string;
  constraints : Constraints;
}.

Record SchemaRef := {
  SchemaRef_Ref : string;
  SchemaRef_Value : option Schema;
}.

(** Only [Required] and [Schema] of openapi3.Header are read. *)
Record Header := {
  Required : bool;
  Header_Schema : option SchemaRef;
}.

Record HeaderRef := {
  HeaderRef_Ref : string;
  HeaderRef_Value : option Header;
}.

(** media_type.go; [Example] and [Examples] are not read by the validator. *)
Record MediaType := {
  MediaType_Schema : option SchemaRef;
  MediaType_Encoding : gmap string (option Encoding);
}.

Record Response := {
  Headers : gmap string (option HeaderRef);
  Content : gmap string (option MediaType);
}.

Record ResponseRef := {
  ResponseRef_Ref : string;
  ResponseRef_Value : option Response;
}.

(** Modelled from the spec: the key type of openapi3.Responses, which is
    not among the sources.  The spec describes the table as a "mapping from
    status code (exact integer) or the sentinel default". *)
Inductive ResponseKey :=
| Exact (code : Z)
| Default.

#[export] Instance ResponseKey_eq_dec : EqDecision ResponseKey.
Proof. solve_decision. Defined.

#[export] Instance ResponseKey_countable : Countable ResponseKey.
Proof.
  refine (inj_countable'
            (fun k => match k with Exact c => inl c | Default => inr tt end)
            (fun s => match s with inl c => Exact c | inr _ => Default end) _).
  now intros [c|].
Defined.

Record Operation := {
  Responses : gmap ResponseKey (option ResponseRef);
}.

Record Route := {
  Route_Operation : option Operation;
}.

Record Request := {
  Method : string;
}.

Record RequestValidationInput := {
  RVI_Request : option Request;
  RVI_Route : option Route;
}.

Record Options := {
  ExcludeResponseBody : bool;
  IncludeResponseStatus : bool;
  MultiError : bool;
  customSchemaErrorFunc : option SchemaErrorFunc;
}.

Record ResponseValidationInput := {
  Input_RequestValidationInput : option RequestValidationInput;
  Status : Z;
  Input_Header : gmap string (list string);
  Body : option ReadCloser;
  Input_Options : option Options;
}.

Inductive SchemaValidationOption :=
| MultiErrors
| SetSchemaErrorMessageCustomizer (f : SchemaErrorFunc)
| VisitAsResponse.

(** The field [Input] of ResponseError always holds the pointer that
    [ValidateResponse] received; it is left out. *)
Record ResponseError := {
  Reason : string;
  Err : option error;
}.
End openapi3.

(** ** Collaborators *)

Class Collaborators `{GoTypes} := {
  (** strconv.Quote, the verb %q of fmt.Sprintf *)
  Quote : string -> string;
  (** strings.TrimSpace *)
  TrimSpace : string -> string;
  (** textproto.CanonicalMIMEHeaderKey *)
  CanonicalMIMEHeaderKey : string -> string;
  (** the method VisitJSON of openapi3.Schema; its pointer receiver may be nil *)
  VisitJSON : option Schema -> Any -> list SchemaValidationOption -> option error;
  (** openapi3.Content.Get *)
  Content_Get : gmap string (option MediaType) -> string -> option MediaType;
  (** decodeBody; the media type it returns first is discarded by the caller *)
  decodeBody : list byte -> gmap string (list string) -> SchemaRef ->
               (string -> option Encoding) -> Any * option error;
}.


(** ** Outcomes, state and the monad of the embedding *)

(** The places where the embedded code reads through a pointer that may be
    nil. *)
Inductive nil_dereference :=
| nil_RequestValidationInput   (* input.RequestValidationInput.Request *)
| nil_Request                  (* req.Method *)
| nil_Route                    (* route.Operation *)
| nil_Operation                (* route.Operation.Responses *)
| nil_HeaderRef                (* s.Value, s being response.Headers[k] *)
| nil_Header                   (* s.Value.Required and s.Value.Schema *)
| nil_Header_Schema            (* s.Value.Schema.Value *)
| nil_Body                     (* body.Close of the deferred call *)
| nil_SchemaRef.               (* schema.Value in getSchemaIdentifier *)

(** What a Go function call ends in: a value or a panic. *)
Inductive go (A : Type) :=
| Value (a : A)
| Panic (site : nil_dereference).
Arguments Value {A} a.
Arguments Panic {A} site.

(** The calls [ValidateResponse] makes to its collaborators. *)
Inductive Call `{GoTypes} :=
| Call_VisitJSON (schema : option Schema) (value : Any)
                 (opts : list SchemaValidationOption)
| Call_ReadAll (body : ReadCloser)
| Call_decodeBody (data : list byte) (schema : SchemaRef)
| Call_Close (body : ReadCloser).

Record State `{GoTypes} := {
  cell : ResponseValidationInput;   (* the struct the input pointer points to *)
  calls : list Call;                (* the calls made so far, oldest first *)
}.

(** One statement of the function body: it goes on to the next statement,
    executes a return statement, or panics. *)
Inductive step `{GoTypes} (A : Type) :=
| Next (a : A)
| Return (err : option ResponseError)
| Abort (site : nil_dereference).
Arguments Next {_ A} a.
Arguments Return {_ A} err.
Arguments Abort {_ A} site.

Definition M `{GoTypes} (A : Type) : Type := State -> step A * State.

Section monad.
Context `{GoTypes}.

Definition ret {A} (a : A) : M A := fun st => (Next a, st).

Definition bind {A B} (m : M A) (k : A -> M B) : M B :=
  fun st =>
    match m st with
    | (Next a, st') => k a st'
    | (Return e, st') => (Return e, st')
    | (Abort p, st') => (Abort p, st')
    end.

(** [return err] *)
Definition return_ {A} (err : option ResponseError) : M A :=
  fun st => (Return err, st).

(** Reading through a pointer. *)
Definition deref {A} (site : nil_dereference) (p : option A) : M A :=
  fun st =>
    match p with
    | Some a => (Next a, st)
    | None => (Abort site, st)
    end.

(** A pure computation that may panic. *)
Definition lift {A} (r : go A) : M A :=
  fun st =>
    match r with
    | Value a => (Next a, st)
    | Panic p => (Abort p, st)
    end.

Definition get_Body : M (option ReadCloser) :=
  fun st => (Next (Body (cell st)), st).

(** The struct [c] after the assignment [c.Body = b]. *)
Definition with_Body (c : ResponseValidationInput) (b : option ReadCloser)
  : ResponseValidationInput :=
  {| Input_RequestValidationInput := Input_RequestValidationInput c;
     Status := Status c;
     Input_Header := Input_Header c;
     Body := b;
     Input_Options := Input_Options c |}.

(** [input.Body = b] *)
Definition set_Body (b : option ReadCloser) : M unit :=
  fun st => (Next tt, {| cell := with_Body (cell st) b; calls := calls st |}).

Definition record (c : Call) : M unit :=
  fun st => (Next tt, {| cell := cell st; calls := calls st ++ [c] |}).

(** [defer f()]: [f] runs when the rest of the function is left, whatever
    the way. *)
Definition defer {A} (f : M unit) (rest : M A) : M A :=
  fun st =>
    match rest st with
    | (r, st') => (r, snd (f st'))
    end.

(** From the body to the function: falling off the end is impossible in
    the source, every path ends in a return statement or a panic. *)
Definition run (body : M (option ResponseError)) (input : ResponseValidationInput)
  : go (option ResponseError) * State :=
  match body {| cell := input; calls := [] |} with
  | (Next e, st) => (Value e, st)
  | (Return e, st) => (Value e, st)
  | (Abort p, st) => (Panic p, st)
  end.
End monad.

Declare Scope go_scope.
Delimit Scope go_scope with go.
Notation "x <- m ;; k" := (bind m (fun x => k))
  (at level 100, m at next level, right associativity) : go_scope.
Notation "m ;; k" := (bind m (fun _ => k))
  (at level 100, right associativity) : go_scope.

(** ** The embedded functions *)

Section openapi3filter.
Context `{Collaborators}.
Local Open Scope go_scope.

(** [m[k]] on a Go map of pointers: nil when the key is absent. *)
Definition index {K V} `{Countable K} (m : gmap K (option V)) (k : K) : option V :=
  match m !! k with
  | Some p => p
  | None => None
  end.

(** [h.Get(key)] of net/http: the first value stored under the canonical
    form of the key, the empty string when there is none. *)
Definition Header_Get (h : gmap string (list string)) (key : string) : string :=
  match h !! CanonicalMIMEHeaderKey key with
  | Some (v :: _) => v
  | _ => ""
  end.

(** [sort.Strings]: increasing order of the bytes. *)
Definition sort_Strings (l : list string) : list string :=
  merge_sort String.le l.

(** The constants of net/http named by the status switch. *)
Definition StatusMovedPermanently : Z := 301.
Definition StatusNotModified : Z := 304.
Definition StatusTemporaryRedirect : Z := 307.
Definition StatusPermanentRedirect : Z := 308.

(** Modelled from the spec: the constant [headerCT], declared in a file that
    is not among the sources; the spec calls it "the content-type header
    name". *)
Definition headerCT : string := "Content-Type".

(** Modelled from the spec: the variable [DefaultOptions], declared in a
    file that is not among the sources; the spec gives every option the
    default false and no formatter. *)
Definition DefaultOptions : Options :=
  {| ExcludeResponseBody := false;
     IncludeResponseStatus := false;
     MultiError := false;
     customSchemaErrorFunc := None |}.

(** Modelled from the spec: the method [Get] of openapi3.Responses, not
    among the sources: the lookup of "the exact status". *)
Definition Responses_Get (responses : gmap ResponseKey (option ResponseRef))
    (status : Z) : option ResponseRef :=
  index responses (Exact status).

(** Modelled from the spec: the method [Default] of openapi3.Responses, not
    among the sources: the lookup of the sentinel. *)
Definition Responses_Default (responses : gmap ResponseKey (option ResponseRef))
  : option ResponseRef :=
  index responses Default.

(** Modelled from the spec: the method [SetBodyBytes] of
    ResponseValidationInput, not among the sources: "the body field is
    repopulated from the captured bytes". *)
Definition SetBodyBytes (value : list byte) : M unit :=
  set_Body (Some (NopCloser value)).

(** The calls to the collaborators, each one recorded when it is made. *)
Definition call_VisitJSON (schema : option Schema) (value : Any)
    (opts : list SchemaValidationOption) : M (option error) :=
  record (Call_VisitJSON schema value opts) ;;
  ret (VisitJSON schema value opts).

Definition call_ReadAll (body : ReadCloser) : M (list byte * option error) :=
  record (Call_ReadAll body) ;;
  ret (ReadAll body).

Definition call_decodeBody (data : list byte) (header : gmap string (list string))
    (schema : SchemaRef) (encFn : string -> option Encoding)
  : M (Any * option error) :=
  record (Call_decodeBody data schema) ;;
  ret (decodeBody data header schema encFn).

Definition getSchemaIdentifier (schema : option SchemaRef) : go string :=
  let id :=
    match schema with
    | Some s => TrimSpace (SchemaRef_Ref s)
    | None => ""
    end in
  if decide (id = "") then
    match schema with
    | None => Panic nil_SchemaRef
    | Some s =>
        match SchemaRef_Value s with
        | Some v => Value (TrimSpace (Title v))
        | None => Value id
        end
    end
  else Value id.

Definition prependSpaceIfNeeded (value : string) : string :=
  if decide (0 < String.length value)%nat then " " +:+ value else value.

(** The options handed to the schema engine (lines 66 to 72). *)
Definition schema_options (options : Options) : list SchemaValidationOption :=
  let opts := [] in
  let opts := if MultiError options then opts ++ [MultiErrors] else opts in
  match customSchemaErrorFunc options with
  | Some f => opts ++ [SetSchemaErrorMessageCustomizer f]
  | None => opts
  end.

(** The names the header loop ranges over (lines 74 to 80). *)
Definition header_names (response : Response) : list string :=
  sort_Strings (filter (fun k => k <> headerCT) (map_to_list (Headers response)).*1).

(** The body of the loop over the declared headers (lines 82 to 99), for
    the header [k]; [continue] is the way on to the next header. *)
Definition validate_header (response : Response) (header : gmap string (list string))
    (opts : list SchemaValidationOption) (k : string) : M unit :=
  let s := index (Headers response) k in
  let h := Header_Get header k in
  if decide (h = "") then
    s <- deref nil_HeaderRef s ;;
    v <- deref nil_Header (HeaderRef_Value s) ;;
    if Required v then
      return_ (Some {| Reason := "response header " +:+ Quote k +:+ " missing";
                       Err := None |})
    else ret tt
  else
    s <- deref nil_HeaderRef s ;;
    v <- deref nil_Header (HeaderRef_Value s) ;;
    schema <- deref nil_Header_Schema (Header_Schema v) ;;
    err <- call_VisitJSON (SchemaRef_Value schema) (of_string h) opts ;;
    match err with
    | Some err =>
        return_ (Some {| Reason := "response header " +:+ Quote k
                                   +:+ " doesn't match the schema";
                         Err := Some err |})
    | None => ret tt
    end.

(** The loop over the declared headers (lines 81 to 100). *)
Fixpoint validate_headers (response : Response) (header : gmap string (list string))
    (opts : list SchemaValidationOption) (headers : list string) : M unit :=
  match headers with
  | [] => ret tt
  | k :: headers =>
      validate_header response header opts k ;;
      validate_headers response header opts headers
  end.

(** Lines 127 to 171: the body is read, put back, decoded and checked. *)
Definition validate_body (header : gmap string (list string))
    (opts : list SchemaValidationOption) (contentType : MediaType)
    (schema : SchemaRef) : M (option ResponseError) :=
  body <- get_Body ;;
  set_Body None ;;
  body <- deref nil_Body body ;;
  defer (record (Call_Close body)) (
    r <- call_ReadAll body ;;
    match r with
    | (_, Some err) =>
        return_ (Some {| Reason := "failed to read response body";
                         Err := Some err |})
    | (data, None) =>
        SetBodyBytes data ;;
        let encFn := fun name => index (MediaType_Encoding contentType) name in
        r <- call_decodeBody data header schema encFn ;;
        match r with
        | (_, Some err) =>
            return_ (Some {| Reason := "failed to decode response body";
                             Err := Some err |})
        | (value, None) =>
            err <- call_VisitJSON (SchemaRef_Value schema) value
                     (opts ++ [VisitAsResponse]) ;;
            match err with
            | Some err =>
                schemaId <- lift (getSchemaIdentifier (Some schema)) ;;
                let schemaId := prependSpaceIfNeeded schemaId in
                return_ (Some {| Reason := "response body doesn't match schema"
                                           +:+ schemaId;
                                 Err := Some err |})
            | None => return_ None
            end
        end
    end).

(** Lines 102 to 171: the declared content is matched with the observed
    content type, then the body is validated. *)
Definition validate_content (header : gmap string (list string)) (options : Options)
    (opts : list SchemaValidationOption) (response : Response)
  : M (option ResponseError) :=
  if ExcludeResponseBody options then return_ None else
  let content := Content response in
  if bool_decide (size content = 0%nat) || ExcludeResponseBody options
  then return_ None else
  let inputMIME := Header_Get header headerCT in
  match Content_Get content inputMIME with
  | None =>
      return_ (Some {| Reason := "response header Content-Type has unexpected value: "
                                 +:+ Quote inputMIME;
                       Err := None |})
  | Some contentType =>
      match MediaType_Schema contentType with
      | None => return_ None
      | Some schema => validate_body header opts contentType schema
      end
  end.

(** Lines 61 to 171: what the function does with the response reference it
    found for the status. *)
Definition validate_against (header : gmap string (list string)) (options : Options)
    (responseRef : ResponseRef) : M (option ResponseError) :=
  match ResponseRef_Value responseRef with
  | None =>
      return_ (Some {| Reason := "response has not been resolved"; Err := None |})
  | Some response =>
      let opts := schema_options options in
      validate_headers response header opts (header_names response) ;;
      validate_content header options opts response
  end.

Definition ValidateResponse_body (input : ResponseValidationInput)
  : M (option ResponseError) :=
  rvi <- deref nil_RequestValidationInput (Input_RequestValidationInput input) ;;
  req <- deref nil_Request (RVI_Request rvi) ;;
  if decide (Method req = "HEAD") then return_ None else
  let status := Status input in
  if (status =? StatusNotModified) || (status =? StatusPermanentRedirect)
     || (status =? StatusTemporaryRedirect) || (status =? StatusMovedPermanently)
  then return_ None else
  let route := RVI_Route rvi in
  let options := default DefaultOptions (Input_Options input) in
  route <- deref nil_Route route ;;
  operation <- deref nil_Operation (Route_Operation route) ;;
  let responses := Responses operation in
  if decide (size responses = 0%nat) then return_ None else
  let responseRef := Responses_Get responses status in
  let responseRef :=
    match responseRef with
    | None => Responses_Default responses
    | Some _ => responseRef
    end in
  match responseRef with
  | None =>
      if negb (IncludeResponseStatus options) then return_ None
      else return_ (Some {| Reason := "status is not supported"; Err := None |})
  | Some responseRef =>
      validate_against (Input_Header input) options responseRef
  end.

Definition ValidateResponse (input : ResponseValidationInput)
  : go (option ResponseError) * State :=
  run (ValidateResponse_body input) input.

End openapi3filter.

(** ** Vocabulary of the specification *)

Section specification.
Context `{Collaborators}.

(** The method of the request the response answers, when the pointers that
    lead to it are set. *)
Definition request_method (input : ResponseValidationInput) : option string :=
  match Input_RequestValidationInput input with
  | Some rvi =>
      match RVI_Request rvi with
      | Some req => Some (Method req)
      | None => None
      end
  | None => None
  end.

(** The response table of the operation, when the pointers that lead to it
    are set. *)
Definition declared_responses (input : ResponseValidationInput)
  : option (gmap ResponseKey (option ResponseRef)) :=
  match Input_RequestValidationInput input with
  | Some rvi =>
      match RVI_Route rvi with
      | Some route =>
          match Route_Operation route with
          | Some operation => Some (Responses operation)
          | None => None
          end
      | None => None
      end
  | None => None
  end.

(** The options in force: the process-wide default when none is supplied. *)
Definition options_of (input : ResponseValidationInput) : Options :=
  default DefaultOptions (Input_Options input).

(** The exemption of the eligibility filter, in the words of the spec: the
    method is HEAD, or the status is one of 301, 304, 307, 308. *)
Definition exempt (method : string) (status : Z) : Prop :=
  method = "HEAD" \/ status ∈ [301; 304; 307; 308].

(** The ordered lookup chain of the spec: nothing declared, the exact entry,
    else the default entry, else undocumented. *)
Inductive resolution :=
| Permissive
| Found (responseRef : ResponseRef)
| Undocumented.

Definition resolve (responses : gmap ResponseKey (option ResponseRef)) (status : Z)
  : resolution :=
  if decide (responses = ∅) then Permissive
  else
    match Responses_Get responses status with
    | Some r => Found r
    | None =>
        match Responses_Default responses with
        | Some r => Found r
        | None => Undocumented
        end
    end.

(** The input gets past the eligibility filter and its status resolves,
    exactly or through the default entry, to [responseRef]. *)
Definition resolves_to (input : ResponseValidationInput) (responseRef : ResponseRef)
  : Prop :=
  exists method responses,
    request_method input = Some method /\
    ~ exempt method (Status input) /\
    declared_responses input = Some responses /\
    resolve responses (Status input) = Found responseRef.

(** What the turn of the declared header [k] in the loop ends in, and the
    calls it makes, read off the declaration and the observed headers:
    [validate_header] is proved to do exactly this, in whatever state. *)
Definition header_verdict (response : Response) (header : gmap string (list string))
    (opts : list SchemaValidationOption) (k : string) : step unit :=
  match index (Headers response) k with
  | None => Abort nil_HeaderRef
  | Some s =>
      match HeaderRef_Value s with
      | None => Abort nil_Header
      | Some v =>
          if decide (Header_Get header k = "") then
            if Required v
            then Return (Some {| Reason := "response header " +:+ Quote k +:+ " missing";
                                 Err := None |})
            else Next tt
          else
            match Header_Schema v with
            | None => Abort nil_Header_Schema
            | Some schema =>
                match VisitJSON (SchemaRef_Value schema)
                                (of_string (Header_Get header k)) opts with
                | Some err =>
                    Return (Some {| Reason := "response header " +:+ Quote k
                                              +:+ " doesn't match the schema";
                                    Err := Some err |})
                | None => Next tt
                end
            end
      end
  end.

Definition header_calls (response : Response) (header : gmap string (list string))
    (opts : list SchemaValidationOption) (k : string) : list Call :=
  match index (Headers response) k with
  | Some s =>
      match HeaderRef_Value s with
      | Some v =>
          if decide (Header_Get header k = "") then []
          else
            match Header_Schema v with
            | Some schema =>
                [Call_VisitJSON (SchemaRef_Value schema)
                                (of_string (Header_Get header k)) opts]
            | None => []
            end
      | None => []
      end
  | None => []
  end.

(** The check of the declared header [k] lets the loop go on. *)
Definition header_passes (response : Response) (header : gmap string (list string))
    (opts : list SchemaValidationOption) (k : string) : Prop :=
  header_verdict response header opts k = Next tt.

(** The call hands the value of an observed header, which is not empty, to
    the schema engine, with the options [opts]. *)
Definition header_value_check (header : gmap string (list string))
    (opts : list SchemaValidationOption) (c : Call) : Prop :=
  exists schema k,
    Header_Get header k <> "" /\
    c = Call_VisitJSON schema (of_string (Header_Get header k)) opts.

(** Increasing order of strings, byte by byte. *)
Definition string_lt (a b : string) : Prop := (a ?= b)%string = Lt.

(** The state a call starts in. *)
Definition initial (input : ResponseValidationInput) : State :=
  {| cell := input; calls := [] |}.

(** The failures of [ValidateResponse], by the kinds of the spec. *)
Definition UndocumentedStatus : ResponseError :=
  {| Reason := "status is not supported"; Err := None |}.
Definition UnresolvedResponse : ResponseError :=
  {| Reason := "response has not been resolved"; Err := None |}.
Definition MissingHeader (k : string) : ResponseError :=
  {| Reason := "response header " +:+ Quote k +:+ " missing"; Err := None |}.
Definition HeaderSchemaMismatch (k : string) (cause : error) : ResponseError :=
  {| Reason := "response header " +:+ Quote k +:+ " doesn't match the schema";
     Err := Some cause |}.
Definition UnsupportedContentType (mime : string) : ResponseError :=
  {| Reason := "response header Content-Type has unexpected value: " +:+ Quote mime;
     Err := None |}.
Definition BodyReadFailure (cause : error) : ResponseError :=
  {| Reason := "failed to read response body"; Err := Some cause |}.
Definition BodyDecodeFailure (cause : error) : ResponseError :=
  {| Reason := "failed to decode response body"; Err := Some cause |}.
Definition BodySchemaMismatch (schemaId : string) (cause : error) : ResponseError :=
  {| Reason := "response body doesn't match schema" +:+ schemaId;
     Err := Some cause |}.

(** The schema identifier in the words of the spec: the trimmed reference
    path when the schema was declared by reference and the trim is not
    empty, else the trimmed title, else nothing. *)
Definition schema_identifier (schema : SchemaRef) : string :=
  if decide (TrimSpace (SchemaRef_Ref schema) <> "")
  then TrimSpace (SchemaRef_Ref schema)
  else
    match SchemaRef_Value schema with
    | Some v => TrimSpace (Title v)
    | None => ""
    end.

(** What the body stage (lines 127 to 171) ends in for a body that is not
    nil: the error returned, the field Body afterwards and the calls made. *)
Definition body_outcome (header : gmap string (list string))
    (opts : list SchemaValidationOption) (contentType : MediaType)
    (schema : SchemaRef) (body : ReadCloser)
  : option ResponseError * option ReadCloser * list Call :=
  let data := content body in
  let encFn := fun name => index (MediaType_Encoding contentType) name in
  let check := Call_VisitJSON (SchemaRef_Value schema)
                 (fst (decodeBody data header schema encFn))
                 (opts ++ [VisitAsResponse]) in
  match failure body with
  | Some err =>
      (Some (BodyReadFailure err), None, [Call_ReadAll body; Call_Close body])
  | None =>
      match snd (decodeBody data header schema encFn) with
      | Some err =>
          (Some (BodyDecodeFailure err), Some (NopCloser data),
           [Call_ReadAll body; Call_decodeBody data schema; Call_Close body])
      | None =>
          (match VisitJSON (SchemaRef_Value schema)
                   (fst (decodeBody data header schema encFn))
                   (opts ++ [VisitAsResponse]) with
           | Some err =>
               Some (BodySchemaMismatch
                       (prependSpaceIfNeeded (schema_identifier schema)) err)
           | None => None
           end,
           Some (NopCloser data),
           [Call_ReadAll body; Call_decodeBody data schema; check; Call_Close body])
      end
  end.

(** The ways [ValidateResponse] ends before the header loop. *)
Definition early_result (r : go (option ResponseError)) : Prop :=
  r ∈ [Value None; Value (Some UndocumentedStatus); Value (Some UnresolvedResponse);
       Panic nil_RequestValidationInput; Panic nil_Request; Panic nil_Route;
       Panic nil_Operation].

(** The ways it ends from the header loop up to the body stage. *)
Definition middle_result (response : Response) (header : gmap string (list string))
    (opts : list SchemaValidationOption) (r : go (option ResponseError)) : Prop :=
  r = Value None \/
  (exists k e, header_verdict response header opts k = Return e /\ r = Value e) \/
  (exists k p, header_verdict response header opts k = Abort p /\ r = Panic p) \/
  r = Value (Some (UnsupportedContentType (Header_Get header headerCT))) \/
  r = Panic nil_Body.

(** All the ways [ValidateResponse] ends, with the state it leaves. *)
Inductive ending (input : ResponseValidationInput)
  : go (option ResponseError) * State -> Prop :=
| ends_early r :
    early_result r ->
    ending input (r, initial input)
| ends_in_the_middle responseRef response r new :
    resolves_to input responseRef ->
    ResponseRef_Value responseRef = Some response ->
    Forall (header_value_check (Input_Header input)
              (schema_options (options_of input))) new ->
    middle_result response (Input_Header input)
      (schema_options (options_of input)) r ->
    ending input (r, {| cell := input; calls := new |})
| ends_in_the_body responseRef response contentType schema body new e b cs :
    resolves_to input responseRef ->
    ResponseRef_Value responseRef = Some response ->
    Content_Get (Content response) (Header_Get (Input_Header input) headerCT)
      = Some contentType ->
    MediaType_Schema contentType = Some schema ->
    Body input = Some body ->
    Forall (header_value_check (Input_Header input)
              (schema_options (options_of input))) new ->
    body_outcome (Input_Header input) (schema_options (options_of input))
      contentType schema body = (e, b, cs) ->
    ending input (Value e, {| cell := with_Body input b; calls := new ++ cs |}).

(** An operation that declares one response, by default, left unresolved. *)
Definition dangling_operation : Operation :=
  {| Responses :=
       {[ Default := Some {| ResponseRef_Ref := "#/components/responses/Missing";
                             ResponseRef_Value := None |} ]} |}.

(** The first and the last character of a string. *)
Definition head_char (s : string) : option ascii :=
  match s with
  | EmptyString => None
  | String a _ => Some a
  end.

Fixpoint last_char (s : string) : option ascii :=
  match s with
  | EmptyString => None
  | String a EmptyString => Some a
  | String _ s => last_char s
  end.

(** No space at either end. *)
Definition trimmed (s : string) : Prop :=
  head_char s <> Some " "%char /\ last_char s <> Some " "%char.

(** The call is not the check of a header: if it is a schema check, it
    carries the response marker of the body check. *)
Definition body_stage_call (c : Call) : Prop :=
  match c with
  | Call_VisitJSON _ _ opts => VisitAsResponse ∈ opts
  | _ => True
  end.

(** The call is a schema check made with the option MultiErrors. *)
Definition aggregating (c : Call) : Prop :=
  match c with
  | Call_VisitJSON _ _ opts => MultiErrors ∈ opts
  | _ => True
  end.

(** The call is the read of the body stream. *)
Definition is_ReadAll (c : Call) : bool :=
  match c with
  | Call_ReadAll _ => true
  | _ => false
  end.

End specification.

(** ** A small instance, for the examples

    Errors are their messages, values of [interface{}] are strings, a schema
    constrains a value to a list of accepted strings, and a body decodes to
    its text.  Header names are written in canonical form and hold no
    character that strconv.Quote escapes. *)

Module Example.

Definition types : GoTypes :=
  {| error := string;
     Any := string;
     of_string := fun s => s;
     Constraints := list string;
     Encoding := unit;
     SchemaErrorFunc := unit |}.

Definition double_quote : string := String (ascii_of_nat 34) EmptyString.

Definition quote (s : string) : string := double_quote +:+ s +:+ double_quote.

Definition is_space (a : ascii) : bool :=
  bool_decide (a ∈ [" "; "009"; "010"; "011"; "012"; "013"]%char).

Fixpoint trim_left (s : string) : string :=
  match s with
  | EmptyString => EmptyString
  | String a s' => if is_space a then trim_left s' else s
  end.

Fixpoint trim_right (s : string) : string :=
  match s with
  | EmptyString => EmptyString
  | String a s' =>
      match trim_right s' with
      | EmptyString => if is_space a then EmptyString else String a EmptyString
      | t => String a t
      end
  end.

Definition trim_space (s : string) : string := trim_right (trim_left s).

Definition has_MultiErrors (opts : list (@SchemaValidationOption types)) : bool :=
  existsb (fun o => match o with MultiErrors => true | _ => false end) opts.

(** The engine accepts the listed values; under MultiErrors it reports every
    violation, here the only one, in an aggregate. *)
Definition visit (schema : option (@Schema types)) (value : string)
    (opts : list (@SchemaValidationOption types)) : option string :=
  match schema with
  | None => Some "no schema"
  | Some s =>
      if bool_decide (value ∈ constraints s) then None
      else if has_MultiErrors opts then Some "all violations: value is not allowed"
      else Some "value is not allowed"
  end.

Definition decode (data : list byte) (header : gmap string (list string))
    (schema : @SchemaRef types) (encFn : string -> option unit)
  : string * option string :=
  match data with
  | [] => ("", Some "unexpected end of input")
  | _ => (string_of_list_byte data, None)
  end.

Definition collaborators : @Collaborators types :=
  {| Quote := quote;
     TrimSpace := trim_space;
     CanonicalMIMEHeaderKey := fun k => k;
     VisitJSON := visit;
     Content_Get := fun content mime => index content mime;
     decodeBody := decode |}.

Definition enum (ref title : string) (accepted : list string) : @SchemaRef types :=
  {| SchemaRef_Ref := ref;
     SchemaRef_Value := Some (@Build_Schema types title accepted) |}.

Definition declare (required : bool) (accepted : list string)
  : option (@HeaderRef types) :=
  Some {| HeaderRef_Ref := "";
          HeaderRef_Value :=
            Some {| Required := required;
                    Header_Schema := Some (enum "" "" accepted) |} |}.

(** A response that declares an optional header Age, a required header
    X-Rate-Limit, an optional header X-Trace, the header Content-Type, and a
    JSON body whose schema is declared by reference. *)
Definition ok_response : @Response types :=
  {| Headers :=
       {[ "X-Trace" := declare false ["on"; "off"];
          "Content-Type" := declare true ["text/plain"];
          "X-Rate-Limit" := declare true ["10"; "20"];
          "Age" := declare false ["0"; "1"] ]};
     Content :=
       {[ "application/json" :=
            Some {| MediaType_Schema :=
                      Some (enum " #/components/schemas/Pet " "Pet" ["{}"]);
                    MediaType_Encoding := ∅ |} ]} |}.

Definition ok : @ResponseRef types :=
  {| ResponseRef_Ref := ""; ResponseRef_Value := Some ok_response |}.

Definition dangling : @ResponseRef types :=
  {| ResponseRef_Ref := "#/components/responses/Error"; ResponseRef_Value := None |}.

(** 200 is declared, and so is a default response that was not resolved. *)
Definition operation : @Operation types :=
  {| Responses := {[ Exact 200 := Some ok; Default := Some dangling ]} |}.

(** 200 is declared, and nothing else. *)
Definition strict_operation : @Operation types :=
  {| Responses := {[ Exact 200 := Some ok ]} |}.

Definition input (operation : @Operation types) (method : string) (status : Z)
    (header : gmap string (list string)) (body : option (@ReadCloser types))
    (options : option (@Options types))
  : @ResponseValidationInput types :=
  {| Input_RequestValidationInput :=
       Some {| RVI_Request := Some {| Method := method |};
               RVI_Route := Some {| Route_Operation := Some operation |} |};
     Status := status;
     Input_Header := header;
     Body := body;
     Input_Options := options |}.

Definition json : gmap string (list string) :=
  {[ "Content-Type" := ["application/json"] ]}.

Definition stream (text : string) : @ReadCloser types :=
  @Build_ReadCloser types (list_byte_of_string text) None.

(** A stream that breaks after its first bytes. *)
Definition broken_stream (text : string) : @ReadCloser types :=
  @Build_ReadCloser types (list_byte_of_string text) (Some "connection reset").

Definition multi_error : @Options types :=
  {| ExcludeResponseBody := false;
     IncludeResponseStatus := false;
     MultiError := true;
     customSchemaErrorFunc := None |}.

Definition strict : @Options types :=
  {| ExcludeResponseBody := false;
     IncludeResponseStatus := true;
     MultiError := false;
     customSchemaErrorFunc := None |}.

Definition failed (reason : string) (cause : option string) : @ResponseError types :=
  @Build_ResponseError types reason cause.

Definition validate (i : @ResponseValidationInput types)
  : go (option (@ResponseError types)) * @State types :=
  @ValidateResponse types collaborators i.

(** The inputs of the examples. *)

(** The read of the body breaks. *)
Definition broken_body : @ResponseValidationInput types :=
  input operation "GET" 200 (<["X-Rate-Limit" := ["10"]]> json)
        (Some (broken_stream "{")) None.

(** The value of X-Rate-Limit is not allowed; neither is the value of
    X-Trace, nor is the body. *)
Definition bad_rate (options : option (@Options types))
  : @ResponseValidationInput types :=
  input operation "GET" 200
        (<["Age" := ["1"]]> (<["X-Rate-Limit" := ["99"]]> (<["X-Trace" := ["loud"]]> json)))
        (Some (stream "[]")) options.


(** X-Rate-Limit is present and empty. *)
Definition empty_rate : @ResponseValidationInput types :=
  input operation "GET" 200
        (<["Age" := ["1"]]> (<["X-Rate-Limit" := [""]]> json))
        (Some (stream "{}")) None.

(** The body is not the accepted one. *)
Definition bad_body : @ResponseValidationInput types :=
  input operation "GET" 200 (<["X-Rate-Limit" := ["10"]]> json)
        (Some (stream "[]")) (Some multi_error).

(** A status that only the default entry covers. *)
Definition not_found : @ResponseValidationInput types :=
  input operation "GET" 404 json (Some (stream "{}")) None.

(** A status that nothing covers, undocumented statuses being errors. *)
Definition teapot : @ResponseValidationInput types :=
  input strict_operation "GET" 418 json (Some (stream "{}")) (Some strict).

(** The answer to a HEAD request, the route being nil. *)
Definition head : @ResponseValidationInput types :=
  {| Input_RequestValidationInput :=
       Some {| RVI_Request := Some {| Method := "HEAD" |}; RVI_Route := None |};
     Status := 200;
     Input_Header := ∅;
     Body := None;
     Input_Options := None |}.

End Example.

(** ** Further vocabulary: what lets a response through *)

Section acceptance.
Context `{Collaborators}.

(** The lookup function of line 151: the encoding declared for a field. *)
Definition encoding_of (contentType : MediaType) (name : string) : option Encoding :=
  index (MediaType_Encoding contentType) name.

(** Lines 102 to 171 let the response through: the body check is switched
    off, or no content is declared, or the matched content entry has no
    schema, or the body is read and decoded without error and the schema
    engine accepts the decoded value. *)
Definition body_accepted (header : gmap string (list string)) (options : Options)
    (response : Response) (body : option ReadCloser) : Prop :=
  ExcludeResponseBody options = true \/
  Content response = ∅ \/
  exists contentType,
    Content_Get (Content response) (Header_Get header headerCT) = Some contentType /\
    (MediaType_Schema contentType = None \/
     exists schema stream,
       MediaType_Schema contentType = Some schema /\
       body = Some stream /\
       failure stream = None /\
       snd (decodeBody (content stream) header schema (encoding_of contentType)) = None /\
       VisitJSON (SchemaRef_Value schema)
         (fst (decodeBody (content stream) header schema (encoding_of contentType)))
         (schema_options options ++ [VisitAsResponse]) = None).


(** How a function whose body ends in the step [r] ends. *)
Definition finish (r : step (option ResponseError) * State)
  : go (option ResponseError) * State :=
  match r with
  | (Next e, st) => (Value e, st)
  | (Return e, st) => (Value e, st)
  | (Abort p, st) => (Panic p, st)
  end.

(** The call reads or closes the body stream. *)
Definition is_stream_call (c : Call) : bool :=
  match c with
  | Call_ReadAll _ | Call_Close _ => true
  | _ => false
  end.

End acceptance.

(** * Package openapi3: the validation of the contract

    The functions of security_scheme.go, media_type.go and path_item.go.  An
    error of these functions is modelled by its message, the string that
    fmt.Errorf and errors.New build and that the verbs %w and %v copy from a
    wrapped error; nil is [None].  The functions these files call and do not
    define are the fields of the class [Validators]. *)

(** openapi3.Example: only the field [Value] is read. *)
Record Example `{GoTypes} := {
  Example_Value : option Any;
}.

Record ExampleRef `{GoTypes} := {
  ExampleRef_Ref : string;
  ExampleRef_Value : option Example;
}.

Class Validators `{GoTypes} := {
  (** context.Context *)
  GoContext : Type;
  (** openapi3.ValidationOption *)
  ValidationOption : Type;
  WithValidationOptions : GoContext -> list ValidationOption -> GoContext;
  (** getValidationOptions(ctx).ExamplesValidationDisabled *)
  ExamplesValidationDisabled : GoContext -> bool;
  (** the error of url.Parse *)
  url_Parse : string -> option string;
  (** the method Validate of SchemaRef *)
  SchemaRef_Validate : GoContext -> SchemaRef -> option string;
  (** the method Validate of ExampleRef; its pointer receiver may be nil *)
  ExampleRef_Validate : GoContext -> option ExampleRef -> option string;
  validateExampleValue : GoContext -> option Any -> option Schema -> option string;
  (** the method Validate of Operation; its pointer receiver may be nil *)
  Operation_Validate : GoContext -> option Operation -> option string;
  NewExample : option Any -> Example;
  (** openapi3.ExtensionProps and its zero value *)
  ExtensionProps : Type;
  no_extensions : ExtensionProps;
  (** the value and the error of jsonpointer.GetForToken *)
  GetForToken : ExtensionProps -> string -> option Any * option string;
}.

(** [len(s) > 0] on a string. *)
Definition nonempty (s : string) : bool := negb (String.eqb s "").

(** ** security_scheme.go *)

Module security.

Inductive oAuthFlowType :=
| oAuthFlowTypeImplicit
| oAuthFlowTypePassword
| oAuthFlowTypeClientCredentials
| oAuthFlowAuthorizationCode.

#[export] Instance oAuthFlowType_eq_dec : EqDecision oAuthFlowType.
Proof. solve_decision. Defined.

Record OAuthFlow := {
  AuthorizationURL : string;
  TokenURL : string;
  RefreshURL : string;
  Scopes : gmap string string;
}.

Record OAuthFlows := {
  Flows_Implicit : option OAuthFlow;
  Flows_Password : option OAuthFlow;
  Flows_ClientCredentials : option OAuthFlow;
  Flows_AuthorizationCode : option OAuthFlow;
}.

Record SecurityScheme := {
  Type_ : string;
  Description : string;
  Name : string;
  In_ : string;
  Scheme : string;
  BearerFormat : string;
  Flows : option OAuthFlows;
  OpenIdConnectUrl : string;
}.

Record SecuritySchemeRef := {
  SecuritySchemeRef_Ref : string;
  SecuritySchemeRef_Value : option SecurityScheme;
}.

(** What JSONLookup returns: an error, a reference, or the value of the
    entry, a pointer that may be nil. *)
Inductive looked_up :=
| NoField (message : string)
| IsRef (ref : string)
| IsValue (value : option SecurityScheme).

Definition NewSecurityScheme : SecurityScheme :=
  {| Type_ := ""; Description := ""; Name := ""; In_ := ""; Scheme := "";
     BearerFormat := ""; Flows := None; OpenIdConnectUrl := "" |}.

Definition NewCSRFSecurityScheme : SecurityScheme :=
  {| Type_ := "apiKey"; Description := ""; Name := "X-XSRF-TOKEN"; In_ := "header";
     Scheme := ""; BearerFormat := ""; Flows := None; OpenIdConnectUrl := "" |}.

Definition NewOIDCSecurityScheme (oidcUrl : string) : SecurityScheme :=
  {| Type_ := "openIdConnect"; Description := ""; Name := ""; In_ := "";
     Scheme := ""; BearerFormat := ""; Flows := None; OpenIdConnectUrl := oidcUrl |}.

Definition NewJWTSecurityScheme : SecurityScheme :=
  {| Type_ := "http"; Description := ""; Name := ""; In_ := ""; Scheme := "bearer";
     BearerFormat := "JWT"; Flows := None; OpenIdConnectUrl := "" |}.

(** The setters write one field of the struct behind the receiver and
    return the receiver: the value here is the struct after the call. *)
Definition WithType (value : string) (ss : SecurityScheme) : SecurityScheme :=
  {| Type_ := value; Description := Description ss; Name := Name ss; In_ := In_ ss;
     Scheme := Scheme ss; BearerFormat := BearerFormat ss; Flows := Flows ss;
     OpenIdConnectUrl := OpenIdConnectUrl ss |}.

Definition WithDescription (value : string) (ss : SecurityScheme) : SecurityScheme :=
  {| Type_ := Type_ ss; Description := value; Name := Name ss; In_ := In_ ss;
     Scheme := Scheme ss; BearerFormat := BearerFormat ss; Flows := Flows ss;
     OpenIdConnectUrl := OpenIdConnectUrl ss |}.

Definition WithName (value : string) (ss : SecurityScheme) : SecurityScheme :=
  {| Type_ := Type_ ss; Description := Description ss; Name := value; In_ := In_ ss;
     Scheme := Scheme ss; BearerFormat := BearerFormat ss; Flows := Flows ss;
     OpenIdConnectUrl := OpenIdConnectUrl ss |}.

Definition WithIn (value : string) (ss : SecurityScheme) : SecurityScheme :=
  {| Type_ := Type_ ss; Description := Description ss; Name := Name ss; In_ := value;
     Scheme := Scheme ss; BearerFormat := BearerFormat ss; Flows := Flows ss;
     OpenIdConnectUrl := OpenIdConnectUrl ss |}.

Definition WithScheme (value : string) (ss : SecurityScheme) : SecurityScheme :=
  {| Type_ := Type_ ss; Description := Description ss; Name := Name ss; In_ := In_ ss;
     Scheme := value; BearerFormat := BearerFormat ss; Flows := Flows ss;
     OpenIdConnectUrl := OpenIdConnectUrl ss |}.

Definition WithBearerFormat (value : string) (ss : SecurityScheme) : SecurityScheme :=
  {| Type_ := Type_ ss; Description := Description ss; Name := Name ss; In_ := In_ ss;
     Scheme := Scheme ss; BearerFormat := value; Flows := Flows ss;
     OpenIdConnectUrl := OpenIdConnectUrl ss |}.

Section security_scheme.
Context `{Collaborators} `{!Validators}.

(** The method JSONLookup of SecuritySchemes. *)
Definition JSONLookup (s : gmap string (option SecuritySchemeRef)) (token : string)
  : looked_up :=
  match s !! token with
  | Some (Some ref) =>
      if decide (SecuritySchemeRef_Ref ref <> "")
      then IsRef (SecuritySchemeRef_Ref ref)
      else IsValue (SecuritySchemeRef_Value ref)
  | _ => NoField ("object has no field " +:+ Quote token)
  end.

(** The method Validate of OAuthFlow (lines 258 to 272). *)
Definition OAuthFlow_Validate (ctx : GoContext) (opts : list ValidationOption)
    (flow : OAuthFlow) : option string :=
  let refresh :=
    if nonempty (RefreshURL flow) then
      match url_Parse (RefreshURL flow) with
      | Some err => Some ("field 'refreshUrl' is invalid: " +:+ err)
      | None => None
      end
    else None in
  match refresh with
  | Some err => Some err
  | None =>
      if decide (size (Scopes flow) = 0%nat)
      then Some "field 'scopes' is empty or missing"
      else None
  end.

(** The closure [typeIn] of lines 277 to 284. *)
Definition typeIn (typ : oAuthFlowType) (types : list oAuthFlowType) : bool :=
  existsb (fun ty => bool_decide (ty = typ)) types.

(** One of the two switches of lines 286 to 310, on the URL [url] of the
    field called [field]. *)
Definition check_url (field url : string) (in_ : bool) : option string :=
  if String.eqb url "" && in_ then
    Some ("field '" +:+ field +:+ "' is empty or missing")
  else if nonempty url && negb in_ then
    Some ("field '" +:+ field +:+ "' should not be set")
  else if nonempty url then
    match url_Parse url with
    | Some err => Some ("field '" +:+ field +:+ "' is invalid: " +:+ err)
    | None => None
    end
  else None.

(** The method validate of OAuthFlow (lines 274 to 313). *)
Definition OAuthFlow_validate (ctx : GoContext) (typ : oAuthFlowType)
    (opts : list ValidationOption) (flow : OAuthFlow) : option string :=
  let ctx := WithValidationOptions ctx opts in
  match check_url "authorizationUrl" (AuthorizationURL flow)
          (typeIn typ [oAuthFlowTypeImplicit; oAuthFlowAuthorizationCode]) with
  | Some err => Some err
  | None =>
      match check_url "tokenUrl" (TokenURL flow)
              (typeIn typ [oAuthFlowTypePassword; oAuthFlowTypeClientCredentials;
                           oAuthFlowAuthorizationCode]) with
      | Some err => Some err
      | None => OAuthFlow_Validate ctx opts flow
      end
  end.

(** One of the four checks of lines 213 to 232. *)
Definition check_flow (ctx : GoContext) (opts : list ValidationOption)
    (name : string) (typ : oAuthFlowType) (v : option OAuthFlow) : option string :=
  match v with
  | Some v =>
      match OAuthFlow_validate ctx typ opts v with
      | Some err => Some ("the OAuth flow '" +:+ name +:+ "' is invalid: " +:+ err)
      | None => None
      end
  | None => None
  end.

(** The method Validate of OAuthFlows (lines 210 to 234). *)
Definition OAuthFlows_Validate (ctx : GoContext) (opts : list ValidationOption)
    (flows : OAuthFlows) : option string :=
  let ctx := WithValidationOptions ctx opts in
  match check_flow ctx opts "implicit" oAuthFlowTypeImplicit (Flows_Implicit flows) with
  | Some err => Some err
  | None =>
  match check_flow ctx opts "password" oAuthFlowTypePassword (Flows_Password flows) with
  | Some err => Some err
  | None =>
  match check_flow ctx opts "clientCredentials" oAuthFlowTypeClientCredentials
          (Flows_ClientCredentials flows) with
  | Some err => Some err
  | None =>
      check_flow ctx opts "authorizationCode" oAuthFlowAuthorizationCode
        (Flows_AuthorizationCode flows)
  end end end.

(** The switch on the type (lines 117 to 140): an error, or the flags
    hasIn, hasBearerFormat and hasFlow. *)
Definition type_flags (ss : SecurityScheme) : string + bool * bool * bool :=
  if String.eqb (Type_ ss) "apiKey" then inr (true, false, false)
  else if String.eqb (Type_ ss) "http" then
    let scheme := Scheme ss in
    if String.eqb scheme "bearer" then inr (false, true, false)
    else if String.eqb scheme "basic" || String.eqb scheme "negotiate"
            || String.eqb scheme "digest"
    then inr (false, false, false)
    else inl ("security scheme of type 'http' has invalid 'scheme' value "
              +:+ Quote scheme)
  else if String.eqb (Type_ ss) "oauth2" then inr (false, false, true)
  else if String.eqb (Type_ ss) "openIdConnect" then
    if String.eqb (OpenIdConnectUrl ss) ""
    then inl ("no OIDC URL found for openIdConnect security scheme "
              +:+ Quote (Name ss))
    else inr (false, false, false)
  else inl ("security scheme 'type' can't be " +:+ Quote (Type_ ss)).

(** The method Validate of SecurityScheme (lines 114 to 177). *)
Definition Validate (ctx : GoContext) (opts : list ValidationOption)
    (ss : SecurityScheme) : option string :=
  let ctx := WithValidationOptions ctx opts in
  match type_flags ss with
  | inl err => Some err
  | inr (hasIn, hasBearerFormat, hasFlow) =>
      let in_and_name :=
        if hasIn then
          if String.eqb (In_ ss) "query" || String.eqb (In_ ss) "header"
             || String.eqb (In_ ss) "cookie"
          then
            if String.eqb (Name ss) ""
            then Some "security scheme of type 'apiKey' should have 'name'"
            else None
          else
            Some ("security scheme of type 'apiKey' should have 'in'. "
                  +:+ "It can be 'query', 'header' or 'cookie', not "
                  +:+ Quote (In_ ss))
        else if nonempty (In_ ss) then
          Some ("security scheme of type " +:+ Quote (Type_ ss) +:+ " can't have 'in'")
        else if nonempty (Name ss) then
          Some "security scheme of type 'apiKey' can't have 'name'"
        else None in
      match in_and_name with
      | Some err => Some err
      | None =>
          if negb hasBearerFormat && nonempty (BearerFormat ss) then
            Some ("security scheme of type " +:+ Quote (Type_ ss)
                  +:+ " can't have 'bearerFormat'")
          else if hasFlow then
            match Flows ss with
            | None =>
                Some ("security scheme of type " +:+ Quote (Type_ ss)
                      +:+ " should have 'flows'")
            | Some flow =>
                match OAuthFlows_Validate ctx [] flow with
                | Some err => Some ("security scheme 'flow' is invalid: " +:+ err)
                | None => None
                end
            end
          else
            match Flows ss with
            | Some _ =>
                Some ("security scheme of type " +:+ Quote (Type_ ss)
                      +:+ " can't have 'flows'")
            | None => None
            end
      end
  end.

(** The URL is set and parses. *)
Definition url_ok (url : string) : Prop :=
  url <> "" /\ url_Parse url = None.

(** The URLs a flow of the type [typ] must and must not have. *)
Definition urls_fit (typ : oAuthFlowType) (flow : OAuthFlow) : Prop :=
  match typ with
  | oAuthFlowTypeImplicit =>
      url_ok (AuthorizationURL flow) /\ TokenURL flow = ""
  | oAuthFlowTypePassword | oAuthFlowTypeClientCredentials =>
      AuthorizationURL flow = "" /\ url_ok (TokenURL flow)
  | oAuthFlowAuthorizationCode =>
      url_ok (AuthorizationURL flow) /\ url_ok (TokenURL flow)
  end.

(** The flow, if there is one, validates as a flow of the type [typ]. *)
Definition flow_ok (ctx : GoContext) (opts : list ValidationOption)
    (typ : oAuthFlowType) (v : option OAuthFlow) : Prop :=
  match v with
  | Some flow => OAuthFlow_validate ctx typ opts flow = None
  | None => True
  end.

End security_scheme.
End security.

(** What a call ends in when it may panic: the value it returns, or the
    message of the panic. *)
Inductive may_panic (A : Type) :=
| Returned (a : A)
| Panicked (message : string).
Arguments Returned {A} a.
Arguments Panicked {A} message.

(** The message of the run-time panic of a read through a nil pointer. *)
Definition nil_pointer_dereference : string :=
  "runtime error: invalid memory address or nil pointer dereference".

(** ** media_type.go *)

(** The media type as the response validator reads it. *)
Abbreviation validated_MediaType := MediaType (only parsing).

Module media.

(** The struct MediaType with all the fields this file reads.  A map that
    is nil and a map that is empty differ here, as Validate tells them
    apart. *)
Record MediaType `{Validators} := {
  mt_ExtensionProps : ExtensionProps;
  mt_Schema : option SchemaRef;
  mt_Example : option Any;
  mt_Examples : option (gmap string (option ExampleRef));
  mt_Encoding : option (gmap string (option Encoding));
}.

Section media_type.
Context `{Collaborators} `{!Validators}.

(** What the response validator reads of a media type. *)
Definition to_validator (mediaType : MediaType) : validated_MediaType :=
  {| MediaType_Schema := mt_Schema mediaType;
     MediaType_Encoding := default ∅ (mt_Encoding mediaType) |}.

Definition NewMediaType : MediaType :=
  {| mt_ExtensionProps := no_extensions;
     mt_Schema := None; mt_Example := None; mt_Examples := None; mt_Encoding := None |}.

Definition WithSchemaRef (schema : option SchemaRef) (mediaType : MediaType)
  : MediaType :=
  {| mt_ExtensionProps := mt_ExtensionProps mediaType;
     mt_Schema := schema;
     mt_Example := mt_Example mediaType;
     mt_Examples := mt_Examples mediaType;
     mt_Encoding := mt_Encoding mediaType |}.

Definition WithSchema (schema : option Schema) (mediaType : MediaType) : MediaType :=
  match schema with
  | None => WithSchemaRef None mediaType
  | Some _ =>
      WithSchemaRef (Some {| SchemaRef_Ref := ""; SchemaRef_Value := schema |}) mediaType
  end.

Definition WithExample (name : string) (value : option Any) (mediaType : MediaType)
  : MediaType :=
  let example := default ∅ (mt_Examples mediaType) in
  {| mt_ExtensionProps := mt_ExtensionProps mediaType;
     mt_Schema := mt_Schema mediaType;
     mt_Example := mt_Example mediaType;
     mt_Examples :=
       Some (<[name := Some {| ExampleRef_Ref := "";
                               ExampleRef_Value := Some (NewExample value) |}]> example);
     mt_Encoding := mt_Encoding mediaType |}.

Definition WithEncoding (name : string) (enc : option Encoding) (mediaType : MediaType)
  : MediaType :=
  let encoding := default ∅ (mt_Encoding mediaType) in
  {| mt_ExtensionProps := mt_ExtensionProps mediaType;
     mt_Schema := mt_Schema mediaType;
     mt_Example := mt_Example mediaType;
     mt_Examples := mt_Examples mediaType;
     mt_Encoding := Some (<[name := enc]> encoding) |}.

(** One turn of the loop over the examples (lines 109 to 117), for the name
    [k]: an error, a panic, or [Returned None] to go on. *)
Definition validate_example (ctx : GoContext) (schema : SchemaRef)
    (examples : gmap string (option ExampleRef)) (k : string)
  : may_panic (option string) :=
  let v := index examples k in
  match ExampleRef_Validate ctx v with
  | Some err => Returned (Some ("example " +:+ k +:+ ": " +:+ err))
  | None =>
      match v with
      | None => Panicked nil_pointer_dereference
      | Some v =>
          match ExampleRef_Value v with
          | None => Panicked nil_pointer_dereference
          | Some example =>
              match validateExampleValue ctx (Example_Value example)
                      (SchemaRef_Value schema) with
              | Some err => Returned (Some ("example " +:+ k +:+ ": " +:+ err))
              | None => Returned None
              end
          end
      end
  end.

Fixpoint validate_examples (ctx : GoContext) (schema : SchemaRef)
    (examples : gmap string (option ExampleRef)) (names : list string)
  : may_panic (option string) :=
  match names with
  | [] => Returned None
  | k :: names =>
      match validate_example ctx schema examples k with
      | Returned None => validate_examples ctx schema examples names
      | r => r
      end
  end.

(** The names the loop over the examples ranges over (lines 104 to 108). *)
Definition example_names (examples : gmap string (option ExampleRef)) : list string :=
  sort_Strings (map_to_list examples).*1.

(** The method Validate of MediaType (lines 78 to 122); the receiver may be
    nil. *)
Definition Validate (ctx : GoContext) (opts : list ValidationOption)
    (mediaType : option MediaType) : may_panic (option string) :=
  let ctx := WithValidationOptions ctx opts in
  match mediaType with
  | None => Returned None
  | Some mediaType =>
      match mt_Schema mediaType with
      | None => Returned None
      | Some schema =>
          match SchemaRef_Validate ctx schema with
          | Some err => Returned (Some err)
          | None =>
              match mt_Example mediaType, mt_Examples mediaType with
              | Some _, Some _ =>
                  Returned (Some "example and examples are mutually exclusive")
              | example, examples =>
                  if ExamplesValidationDisabled ctx then Returned None
                  else
                    match
                      match example with
                      | Some _ =>
                          validateExampleValue ctx example (SchemaRef_Value schema)
                      | None => None
                      end
                    with
                    | Some err => Returned (Some ("invalid example: " +:+ err))
                    | None =>
                        match examples with
                        | Some examples =>
                            validate_examples ctx schema examples
                              (example_names examples)
                        | None => Returned None
                        end
                    end
              end
          end
      end
  end.

(** What JSONLookup returns: an error, a reference, or the value of one of
    the fields. *)
Inductive looked_up :=
| Extension (found : option Any * option string)
| IsRef (ref : string)
| IsSchema (schema : option Schema)
| IsExample (example : option Any)
| IsExamples (examples : option (gmap string (option ExampleRef)))
| IsEncoding (encoding : option (gmap string (option Encoding))).

(** The method JSONLookup of MediaType (lines 125 to 143).  A case of the
    switch that does not return leaves the switch. *)
Definition JSONLookup (mediaType : MediaType) (token : string) : looked_up :=
  let extension := Extension (GetForToken (mt_ExtensionProps mediaType) token) in
  if String.eqb token "schema" then
    match mt_Schema mediaType with
    | Some schema =>
        if nonempty (SchemaRef_Ref schema) then IsRef (SchemaRef_Ref schema)
        else IsSchema (SchemaRef_Value schema)
    | None => extension
    end
  else if String.eqb token "example" then IsExample (mt_Example mediaType)
  else if String.eqb token "examples" then IsExamples (mt_Examples mediaType)
  else if String.eqb token "encoding" then IsEncoding (mt_Encoding mediaType)
  else extension.

End media_type.
End media.

(** ** path_item.go *)

Module path_item.

(** The operations of the struct PathItem; its other fields are not read
    by the functions of the file. *)
Record PathItem `{GoTypes} := {
  PathItem_Connect : option Operation;
  PathItem_Delete : option Operation;
  PathItem_Get : option Operation;
  PathItem_Head : option Operation;
  PathItem_Options : option Operation;
  PathItem_Patch : option Operation;
  PathItem_Post : option Operation;
  PathItem_Put : option Operation;
  PathItem_Trace : option Operation;
}.

(** The method names of net/http. *)
Definition MethodConnect : string := "CONNECT".
Definition MethodDelete : string := "DELETE".
Definition MethodGet : string := "GET".
Definition MethodHead : string := "HEAD".
Definition MethodOptions : string := "OPTIONS".
Definition MethodPatch : string := "PATCH".
Definition MethodPost : string := "POST".
Definition MethodPut : string := "PUT".
Definition MethodTrace : string := "TRACE".

Section path_item.
Context `{Collaborators} `{!Validators}.

(** [if v := field; v != nil { operations[method] = v }] *)
Definition put (method : string) (v : option Operation)
    (operations : gmap string (option Operation)) : gmap string (option Operation) :=
  match v with
  | Some _ => <[method := v]> operations
  | None => operations
  end.

Definition Operations (pathItem : PathItem) : gmap string (option Operation) :=
  let operations := ∅ in
  let operations := put MethodConnect (PathItem_Connect pathItem) operations in
  let operations := put MethodDelete (PathItem_Delete pathItem) operations in
  let operations := put MethodGet (PathItem_Get pathItem) operations in
  let operations := put MethodHead (PathItem_Head pathItem) operations in
  let operations := put MethodOptions (PathItem_Options pathItem) operations in
  let operations := put MethodPatch (PathItem_Patch pathItem) operations in
  let operations := put MethodPost (PathItem_Post pathItem) operations in
  let operations := put MethodPut (PathItem_Put pathItem) operations in
  let operations := put MethodTrace (PathItem_Trace pathItem) operations in
  operations.

Definition GetOperation (pathItem : PathItem) (method : string)
  : may_panic (option Operation) :=
  if String.eqb method MethodConnect then Returned (PathItem_Connect pathItem)
  else if String.eqb method MethodDelete then Returned (PathItem_Delete pathItem)
  else if String.eqb method MethodGet then Returned (PathItem_Get pathItem)
  else if String.eqb method MethodHead then Returned (PathItem_Head pathItem)
  else if String.eqb method MethodOptions then Returned (PathItem_Options pathItem)
  else if String.eqb method MethodPatch then Returned (PathItem_Patch pathItem)
  else if String.eqb method MethodPost then Returned (PathItem_Post pathItem)
  else if String.eqb method MethodPut then Returned (PathItem_Put pathItem)
  else if String.eqb method MethodTrace then Returned (PathItem_Trace pathItem)
  else Panicked ("unsupported HTTP method " +:+ Quote method).

(** The struct behind the receiver after the call, or the panic. *)
Definition SetOperation (pathItem : PathItem) (method : string)
    (operation : option Operation) : may_panic PathItem :=
  let p := pathItem in
  if String.eqb method MethodConnect then
    Returned {| PathItem_Connect := operation; PathItem_Delete := PathItem_Delete p;
                PathItem_Get := PathItem_Get p; PathItem_Head := PathItem_Head p;
                PathItem_Options := PathItem_Options p;
                PathItem_Patch := PathItem_Patch p; PathItem_Post := PathItem_Post p;
                PathItem_Put := PathItem_Put p; PathItem_Trace := PathItem_Trace p |}
  else if String.eqb method MethodDelete then
    Returned {| PathItem_Connect := PathItem_Connect p; PathItem_Delete := operation;
                PathItem_Get := PathItem_Get p; PathItem_Head := PathItem_Head p;
                PathItem_Options := PathItem_Options p;
                PathItem_Patch := PathItem_Patch p; PathItem_Post := PathItem_Post p;
                PathItem_Put := PathItem_Put p; PathItem_Trace := PathItem_Trace p |}
  else if String.eqb method MethodGet then
    Returned {| PathItem_Connect := PathItem_Connect p;
                PathItem_Delete := PathItem_Delete p;
                PathItem_Get := operation; PathItem_Head := PathItem_Head p;
                PathItem_Options := PathItem_Options p;
                PathItem_Patch := PathItem_Patch p; PathItem_Post := PathItem_Post p;
                PathItem_Put := PathItem_Put p; PathItem_Trace := PathItem_Trace p |}
  else if String.eqb method MethodHead then
    Returned {| PathItem_Connect := PathItem_Connect p;
                PathItem_Delete := PathItem_Delete p;
                PathItem_Get := PathItem_Get p; PathItem_Head := operation;
                PathItem_Options := PathItem_Options p;
                PathItem_Patch := PathItem_Patch p; PathItem_Post := PathItem_Post p;
                PathItem_Put := PathItem_Put p; PathItem_Trace := PathItem_Trace p |}
  else if String.eqb method MethodOptions then
    Returned {| PathItem_Connect := PathItem_Connect p;
                PathItem_Delete := PathItem_Delete p;
                PathItem_Get := PathItem_Get p; PathItem_Head := PathItem_Head p;
                PathItem_Options := operation;
                PathItem_Patch := PathItem_Patch p; PathItem_Post := PathItem_Post p;
                PathItem_Put := PathItem_Put p; PathItem_Trace := PathItem_Trace p |}
  else if String.eqb method MethodPatch then
    Returned {| PathItem_Connect := PathItem_Connect p;
                PathItem_Delete := PathItem_Delete p;
                PathItem_Get := PathItem_Get p; PathItem_Head := PathItem_Head p;
                PathItem_Options := PathItem_Options p;
                PathItem_Patch := operation; PathItem_Post := PathItem_Post p;
                PathItem_Put := PathItem_Put p; PathItem_Trace := PathItem_Trace p |}
  else if String.eqb method MethodPost then
    Returned {| PathItem_Connect := PathItem_Connect p;
                PathItem_Delete := PathItem_Delete p;
                PathItem_Get := PathItem_Get p; PathItem_Head := PathItem_Head p;
                PathItem_Options := PathItem_Options p;
                PathItem_Patch := PathItem_Patch p; PathItem_Post := operation;
                PathItem_Put := PathItem_Put p; PathItem_Trace := PathItem_Trace p |}
  else if String.eqb method MethodPut then
    Returned {| PathItem_Connect := PathItem_Connect p;
                PathItem_Delete := PathItem_Delete p;
                PathItem_Get := PathItem_Get p; PathItem_Head := PathItem_Head p;
                PathItem_Options := PathItem_Options p;
                PathItem_Patch := PathItem_Patch p; PathItem_Post := PathItem_Post p;
                PathItem_Put := operation; PathItem_Trace := PathItem_Trace p |}
  else if String.eqb method MethodTrace then
    Returned {| PathItem_Connect := PathItem_Connect p;
                PathItem_Delete := PathItem_Delete p;
                PathItem_Get := PathItem_Get p; PathItem_Head := PathItem_Head p;
                PathItem_Options := PathItem_Options p;
                PathItem_Patch := PathItem_Patch p; PathItem_Post := PathItem_Post p;
                PathItem_Put := PathItem_Put p; PathItem_Trace := operation |}
  else Panicked ("unsupported HTTP method " +:+ Quote method).

(** The loop of Validate over the sorted methods. *)
Fixpoint validate_operations (ctx : GoContext)
    (operations : gmap string (option Operation)) (methods : list string)
  : option string :=
  match methods with
  | [] => None
  | method :: methods =>
      let operation := index operations method in
      match Operation_Validate ctx operation with
      | Some err => Some ("invalid operation " +:+ method +:+ ": " +:+ err)
      | None => validate_operations ctx operations methods
      end
  end.

(** The method Validate of PathItem. *)
Definition Validate (ctx : GoContext) (opts : list ValidationOption)
    (pathItem : PathItem) : option string :=
  let ctx := WithValidationOptions ctx opts in
  let operations := Operations pathItem in
  let methods := sort_Strings (map_to_list operations).*1 in
  validate_operations ctx operations methods.

(** The methods a path item has a field for, in increasing order. *)
Definition methods : list string :=
  [MethodConnect; MethodDelete; MethodGet; MethodHead; MethodOptions; MethodPatch;
   MethodPost; MethodPut; MethodTrace].

(** The error of the operation the path item has for the method, if it has
    one and it does not validate, as Validate words it. *)
Definition operation_error (ctx : GoContext) (pathItem : PathItem) (method : string)
  : option string :=
  match GetOperation pathItem method with
  | Returned (Some operation) =>
      match Operation_Validate ctx (Some operation) with
      | Some err => Some ("invalid operation " +:+ method +:+ ": " +:+ err)
      | None => None
      end
  | _ => None
  end.

End path_item.
End path_item.

(** ** A small instance of the validators, for the examples

    The context carries the switch that disables the validation of
    examples, and an option sets it.  A URL that starts with a colon does not
    parse.  The other validators follow the instance [Example]: a value
    validates when the schema lists it. *)

Module Sample.

Definition parse (url : string) : option string :=
  match url with
  | String ":" _ => Some "missing protocol scheme"
  | _ => None
  end.

Definition validate_value (v : option string) (schema : option (@Schema Example.types))
  : option string :=
  match v, schema with
  | Some v, Some s =>
      if bool_decide (v ∈ @constraints Example.types s) then None
      else Some "value is not allowed"
  | _, _ => None
  end.

Definition validators : @Validators Example.types :=
  {| GoContext := bool;
     ValidationOption := bool;
     WithValidationOptions :=
       fun ctx opts => match opts with [] => ctx | _ => default false (last opts) end;
     ExamplesValidationDisabled := fun ctx => ctx;
     url_Parse := parse;
     SchemaRef_Validate :=
       fun _ schema =>
         match @SchemaRef_Value Example.types schema with
         | Some _ => None
         | None => Some "found unresolved ref"
         end;
     ExampleRef_Validate :=
       fun _ ref =>
         match ref with
         | Some ref =>
             match @ExampleRef_Value Example.types ref with
             | Some _ => None
             | None => Some "found unresolved ref"
             end
         | None => Some "found unresolved ref"
         end;
     validateExampleValue := fun _ v schema => validate_value v schema;
     Operation_Validate :=
       fun _ operation =>
         match operation with
         | Some o =>
             if bool_decide (@Responses Example.types o = ∅)
             then Some "value of responses must be an object"
             else None
         | None => Some "no operation"
         end;
     NewExample := fun v => @Build_Example Example.types v;
     ExtensionProps := unit;
     no_extensions := tt;
     GetForToken := fun _ token => (None, Some ("object has no field " +:+ token)) |}.

Definition pet : @Schema Example.types := @Build_Schema Example.types " Pet " ["{}"].

Definition example (value : string) : option (@ExampleRef Example.types) :=
  Some {| ExampleRef_Ref := "";
          ExampleRef_Value := Some (@Build_Example Example.types (Some value)) |}.

(** A media type with the schema [pet] and three examples: the first
    validates, the second does not, the third is a nil entry. *)
Definition with_examples : @media.MediaType Example.types validators :=
  {| media.mt_ExtensionProps := (tt : @ExtensionProps Example.types validators);
     media.mt_Schema := Some {| SchemaRef_Ref := ""; SchemaRef_Value := Some pet |};
     media.mt_Example := None;
     media.mt_Examples :=
       Some {[ "cat" := example "{}"; "dog" := example "[]"; "eel" := None ]};
     media.mt_Encoding := None |}.

Definition exclude_body : @Options Example.types :=
  {| ExcludeResponseBody := true;
     IncludeResponseStatus := false;
     MultiError := false;
     customSchemaErrorFunc := None |}.

(** Every header and the body are as declared. *)
Definition good : @ResponseValidationInput Example.types :=
  Example.input Example.operation "GET" 200
    (<["X-Rate-Limit" := ["10"]]> Example.json) (Some (Example.stream "{}")) None.

(** The body is not the accepted one, and its validation is switched off. *)
Definition unchecked_body : @ResponseValidationInput Example.types :=
  Example.input Example.operation "GET" 200
    (<["X-Rate-Limit" := ["10"]]> Example.json) (Some (Example.stream "[]"))
    (Some exclude_body).

(** The content type is not a declared one. *)
Definition xml : @ResponseValidationInput Example.types :=
  Example.input Example.operation "GET" 200
    {[ "X-Rate-Limit" := ["10"]; "Content-Type" := ["application/xml"] ]}
    (Some (Example.stream "<pet/>")) None.

(** The body is empty, which the decoder of the instance rejects. *)
Definition empty_body : @ResponseValidationInput Example.types :=
  Example.input Example.operation "GET" 200
    (<["X-Rate-Limit" := ["10"]]> Example.json) (Some (Example.stream "")) None.

End Sample.

(** * Properties *)

Section properties.
Context `{Collaborators}.

(** ** The monad *)

Lemma bind_Next {A B} (m : M A) (k : A -> M B) st a st' :
  m st = (Next a, st') -> bind m k st = k a st'.
Proof. intros Hm. unfold bind. now rewrite Hm. Qed.

Lemma bind_Return {A B} (m : M A) (k : A -> M B) st e st' :
  m st = (Return e, st') -> bind m k st = (Return e, st').
Proof. intros Hm. unfold bind. now rewrite Hm. Qed.

Lemma bind_Abort {A B} (m : M A) (k : A -> M B) st p st' :
  m st = (Abort p, st') -> bind m k st = (Abort p, st').
Proof. intros Hm. unfold bind. now rewrite Hm. Qed.

(** ** The header loop *)

Lemma validate_header_spec response header opts k st :
  validate_header response header opts k st =
    (header_verdict response header opts k,
     {| cell := cell st;
        calls := calls st ++ header_calls response header opts k |}).
Proof.
  unfold validate_header, header_verdict, header_calls.
  unfold bind, deref, return_, ret, call_VisitJSON, record, bind.
  destruct st as [c cs]. cbn.
  destruct (decide (Header_Get header k = "")) as [Hh|Hh];
    destruct (index (Headers response) k) as [s|]; cbn;
    rewrite ?app_nil_r; try reflexivity;
    destruct (HeaderRef_Value s) as [v|]; cbn;
    rewrite ?app_nil_r; try reflexivity.
  - now destruct (Required v).
  - destruct (Header_Schema v) as [schema|]; cbn; rewrite ?app_nil_r; [|reflexivity].
    now destruct (VisitJSON _ _ _).
Qed.

Lemma validate_headers_pass response header opts before rest st :
  Forall (header_passes response header opts) before ->
  validate_headers response header opts (before ++ rest) st =
    validate_headers response header opts rest
      {| cell := cell st;
         calls := calls st ++ flat_map (header_calls response header opts) before |}.
Proof.
  intros Hall. revert st. induction Hall as [|k before Hk _ IH]; intros st.
  - cbn. rewrite app_nil_r. now destruct st.
  - cbn [app validate_headers flat_map].
    erewrite bind_Next by (rewrite validate_header_spec, Hk; reflexivity).
    rewrite IH. cbn. now rewrite app_assoc.
Qed.

Lemma validate_headers_stop response header opts k rest st e :
  header_verdict response header opts k = Return e ->
  validate_headers response header opts (k :: rest) st =
    (Return e,
     {| cell := cell st;
        calls := calls st ++ header_calls response header opts k |}).
Proof.
  intros Hk. cbn [validate_headers].
  erewrite bind_Return by (rewrite validate_header_spec, Hk; reflexivity).
  reflexivity.
Qed.

Lemma validate_headers_cons response header opts k rest st :
  validate_headers response header opts (k :: rest) st =
    let st' := {| cell := cell st;
                  calls := calls st ++ header_calls response header opts k |} in
    match header_verdict response header opts k with
    | Next _ => validate_headers response header opts rest st'
    | Return e => (Return e, st')
    | Abort p => (Abort p, st')
    end.
Proof.
  cbn [validate_headers]. unfold bind. rewrite validate_header_spec.
  now destruct (header_verdict response header opts k).
Qed.

Lemma header_calls_are_checks response header opts k :
  Forall (header_value_check header opts) (header_calls response header opts k).
Proof.
  unfold header_calls.
  destruct (index (Headers response) k) as [s|]; [|constructor].
  destruct (HeaderRef_Value s) as [v|]; [|constructor].
  destruct (decide (Header_Get header k = "")) as [|Hh]; [constructor|].
  destruct (Header_Schema v) as [schema|]; [|constructor].
  repeat constructor. now exists (SchemaRef_Value schema), k.
Qed.

Lemma validate_headers_frame response header opts names st :
  exists new,
    snd (validate_headers response header opts names st) =
      {| cell := cell st; calls := calls st ++ new |} /\
    Forall (header_value_check header opts) new.
Proof.
  revert st. induction names as [|k names IH]; intros st.
  - exists []. cbn. rewrite app_nil_r. split; [now destruct st|constructor].
  - rewrite validate_headers_cons. cbn zeta.
    pose proof (header_calls_are_checks response header opts k) as Hk.
    destruct (header_verdict response header opts k).
    + destruct (IH {| cell := cell st;
                      calls := calls st ++ header_calls response header opts k |})
        as (new & -> & Hnew).
      exists (header_calls response header opts k ++ new). cbn.
      rewrite app_assoc. split; [reflexivity|]. now apply Forall_app.
    + now exists (header_calls response header opts k).
    + now exists (header_calls response header opts k).
Qed.

Lemma header_verdict_failure response header opts k e :
  header_verdict response header opts k = Return e ->
  e = Some (MissingHeader k) \/ exists cause, e = Some (HeaderSchemaMismatch k cause).
Proof.
  unfold header_verdict.
  destruct (index (Headers response) k) as [s|]; [|discriminate].
  destruct (HeaderRef_Value s) as [v|]; [|discriminate].
  destruct (decide (Header_Get header k = "")).
  - destruct (Required v); [|discriminate]. intros [= <-]. now left.
  - destruct (Header_Schema v) as [schema|]; [|discriminate].
    destruct (VisitJSON _ _ _) as [cause|]; [|discriminate].
    intros [= <-]. right. now exists cause.
Qed.

(** ** The order of the header names *)

Lemma string_le_lt (a b : string) : String.le a b -> a <> b -> string_lt a b.
Proof.
  unfold String.le, String.leb, string_lt. intros Hle Hne.
  destruct (a ?= b)%string eqn:Hc; [|reflexivity|contradiction].
  now apply String.compare_eq_iff in Hc.
Qed.

Lemma sorted_nodup_strict (l : list string) :
  Sorted String.le l -> NoDup l -> StronglySorted string_lt l.
Proof.
  intros Hs Hn. apply Sorted_StronglySorted in Hs; [|apply _].
  induction Hs as [|a l Hs IH Ha]; [constructor|].
  apply NoDup_cons in Hn as [Hna Hn]. constructor; [now apply IH|].
  rewrite Forall_forall in Ha |- *. intros b Hb. apply string_le_lt.
  - now apply Ha.
  - intros ->. now apply Hna.
Qed.

Lemma header_names_Permutation response :
  header_names response ≡ₚ
    filter (fun k => k <> headerCT) (map_to_list (Headers response)).*1.
Proof. unfold header_names, sort_Strings. apply merge_sort_Permutation. Qed.

Lemma header_names_sorted response :
  StronglySorted string_lt (header_names response).
Proof.
  apply sorted_nodup_strict.
  - unfold header_names, sort_Strings. apply Sorted_merge_sort; apply _.
  - rewrite header_names_Permutation. apply NoDup_filter, NoDup_fst_map_to_list.
Qed.

Lemma elem_of_header_names response k :
  k ∈ header_names response <->
  is_Some (Headers response !! k) /\ k <> headerCT.
Proof.
  rewrite header_names_Permutation, list_elem_of_filter, list_elem_of_fmap.
  split.
  - intros [Hne ([k' p] & -> & Hin)]. split; [|assumption].
    apply elem_of_map_to_list in Hin. cbn. now exists p.
  - intros [[p Hp] Hne]. split; [assumption|].
    exists (k, p). split; [reflexivity|]. now apply elem_of_map_to_list.
Qed.

(** ** Eligibility and resolution *)

Lemma never_validated_iff (status : Z) :
  (status =? StatusNotModified) || (status =? StatusPermanentRedirect)
  || (status =? StatusTemporaryRedirect) || (status =? StatusMovedPermanently) = true
  <-> status ∈ [301; 304; 307; 308].
Proof.
  unfold StatusNotModified, StatusPermanentRedirect, StatusTemporaryRedirect,
    StatusMovedPermanently.
  rewrite !orb_true_iff, !Z.eqb_eq, !elem_of_cons, elem_of_nil. tauto.
Qed.

Lemma exempt_returns input method :
  request_method input = Some method ->
  exempt method (Status input) ->
  ValidateResponse input = (Value None, initial input).
Proof.
  unfold request_method, ValidateResponse, run, ValidateResponse_body, initial.
  unfold bind, deref, return_.
  destruct (Input_RequestValidationInput input) as [rvi|]; [|discriminate].
  destruct (RVI_Request rvi) as [req|]; [|discriminate].
  intros [= <-] Hex.
  destruct (decide (Method req = "HEAD")) as [|Hm]; [reflexivity|].
  destruct Hex as [|Hs]; [contradiction|].
  apply never_validated_iff in Hs. now rewrite Hs.
Qed.

Lemma eligible_runs input method responses :
  request_method input = Some method ->
  ~ exempt method (Status input) ->
  declared_responses input = Some responses ->
  ValidateResponse input =
    match resolve responses (Status input) with
    | Permissive => (Value None, initial input)
    | Found responseRef =>
        run (validate_against (Input_Header input) (options_of input) responseRef) input
    | Undocumented =>
        if IncludeResponseStatus (options_of input)
        then (Value (Some UndocumentedStatus), initial input)
        else (Value None, initial input)
    end.
Proof.
  unfold request_method, declared_responses, ValidateResponse, run,
    ValidateResponse_body, initial, resolve, options_of.
  unfold bind, deref, return_.
  destruct (Input_RequestValidationInput input) as [rvi|]; [|discriminate].
  destruct (RVI_Request rvi) as [req|]; [|discriminate].
  intros [= <-] Hex.
  destruct (RVI_Route rvi) as [route|]; [|discriminate].
  destruct (Route_Operation route) as [operation|]; [|discriminate].
  intros [= <-].
  destruct (decide (Method req = "HEAD")) as [Hm|Hm].
  { exfalso. apply Hex. now left. }
  destruct ((Status input =? StatusNotModified) || _ || _ || _) eqn:Hs.
  { exfalso. apply Hex. right. now apply never_validated_iff. }
  destruct (decide (size (Responses operation) = 0%nat)) as [Hz|Hz];
    destruct (decide (Responses operation = ∅)) as [He|He].
  - reflexivity.
  - now apply map_size_empty_iff in Hz.
  - now apply map_size_empty_iff in He.
  - destruct (Responses_Get (Responses operation) (Status input)); [reflexivity|].
    destruct (Responses_Default (Responses operation)); [reflexivity|].
    now destruct (IncludeResponseStatus _).
Qed.

Lemma exempt_dec method status : {exempt method status} + {~ exempt method status}.
Proof.
  unfold exempt.
  destruct (decide (method = "HEAD")); [left; now left|].
  destruct (decide (status ∈ [301; 304; 307; 308])); [left; now right|].
  right. tauto.
Qed.

(** C4. The eligibility filter exempts exactly the method HEAD and the
    statuses 301, 304, 307 and 308.  For such a method or status
    ValidateResponse returns success whatever the contract (even a route
    that is nil), the headers and the body are: no collaborator is called
    and the input is as it was.  For every other pair of method and status
    the exemption does not apply: some contract makes the validation of
    such an input end otherwise. *)
Theorem eligibility_filter method status :
  exempt method status <->
  (forall input,
      request_method input = Some method ->
      Status input = status ->
      ValidateResponse input = (Value None, initial input)).
Proof.
  split.
  - intros Hex input Hm <-. now apply exempt_returns with method.
  - intros Hall. destruct (exempt_dec method status) as [|Hne]; [assumption|].
    exfalso.
    pose (input :=
            {| Input_RequestValidationInput :=
                 Some {| RVI_Request := Some {| Method := method |};
                         RVI_Route := Some {| Route_Operation := Some dangling_operation |} |};
               Status := status;
               Input_Header := ∅;
               Body := None;
               Input_Options := None |}).
    specialize (Hall input eq_refl eq_refl).
    rewrite (eligible_runs input method (Responses dangling_operation)) in Hall;
      [|reflexivity|assumption|reflexivity].
    unfold resolve, Responses_Get, Responses_Default, index in Hall. cbn in Hall.
    destruct (decide (_ = ∅)) as [He|_] in Hall.
    { now apply map_non_empty_singleton in He. }
    rewrite lookup_singleton_ne in Hall by discriminate.
    rewrite lookup_singleton_eq in Hall. discriminate Hall.
Qed.

(** C2. The resolver of ValidateResponse is the ordered lookup chain of the
    spec.  For an input that gets past the eligibility filter: an empty
    table ends the validation with success; otherwise the exact entry is
    used when there is one, else the default entry when there is one (the
    rest of the function runs on it); with neither, the validation succeeds
    when the option IncludeResponseStatus is false and fails with
    UndocumentedStatus, reason "status is not supported", when it is true.
    In the three cases that end here, no collaborator was called and the
    input is as it was. *)
Theorem resolver_is_lookup_chain input method responses :
  request_method input = Some method ->
  ~ exempt method (Status input) ->
  declared_responses input = Some responses ->
  ValidateResponse input =
    if decide (responses = ∅) then (Value None, initial input)
    else
      match Responses_Get responses (Status input) with
      | Some exact =>
          run (validate_against (Input_Header input) (options_of input) exact) input
      | None =>
          match Responses_Default responses with
          | Some by_default =>
              run (validate_against (Input_Header input) (options_of input) by_default)
                  input
          | None =>
              if IncludeResponseStatus (options_of input)
              then (Value (Some {| Reason := "status is not supported"; Err := None |}),
                    initial input)
              else (Value None, initial input)
          end
      end.
Proof.
  intros Hm Hex Hr. rewrite (eligible_runs _ _ _ Hm Hex Hr). unfold resolve.
  destruct (decide (responses = ∅)); [reflexivity|].
  destruct (Responses_Get responses (Status input)); [reflexivity|].
  now destruct (Responses_Default responses).
Qed.

(** C5. When the status of an input that gets past the eligibility filter
    resolves, exactly or through the default entry, to a response reference
    whose value is nil, ValidateResponse fails with UnresolvedResponse,
    reason "response has not been resolved", whatever the observed headers,
    the body and the options; nothing was called and the input is as it
    was. *)
Theorem unresolved_response_fails input responseRef :
  resolves_to input responseRef ->
  ResponseRef_Value responseRef = None ->
  ValidateResponse input =
    (Value (Some {| Reason := "response has not been resolved"; Err := None |}),
     initial input).
Proof.
  intros (method & responses & Hm & Hex & Hr & Hres) Hnil.
  rewrite (eligible_runs _ _ _ Hm Hex Hr), Hres.
  unfold run, validate_against. now rewrite Hnil.
Qed.

(** ** Header failures *)

Lemma resolved_runs input responseRef response :
  resolves_to input responseRef ->
  ResponseRef_Value responseRef = Some response ->
  ValidateResponse input =
    run (validate_headers response (Input_Header input)
           (schema_options (options_of input)) (header_names response) ;;
         validate_content (Input_Header input) (options_of input)
           (schema_options (options_of input)) response)%go
        input.
Proof.
  intros (method & responses & Hm & Hex & Hr & Hres) Hval.
  rewrite (eligible_runs _ _ _ Hm Hex Hr), Hres.
  unfold validate_against. now rewrite Hval.
Qed.

Lemma header_failure_aborts input responseRef response before k after e :
  resolves_to input responseRef ->
  ResponseRef_Value responseRef = Some response ->
  header_names response = before ++ k :: after ->
  Forall (header_passes response (Input_Header input)
            (schema_options (options_of input))) before ->
  header_verdict response (Input_Header input)
    (schema_options (options_of input)) k = Return e ->
  ValidateResponse input =
    (Value e,
     {| cell := input;
        calls := flat_map (header_calls response (Input_Header input)
                             (schema_options (options_of input)))
                          (before ++ [k]) |}).
Proof.
  intros Hres Hval Hnames Hbefore Hk.
  rewrite (resolved_runs _ _ _ Hres Hval), Hnames. unfold run.
  erewrite bind_Return.
  2:{ rewrite validate_headers_pass by assumption.
      apply validate_headers_stop. exact Hk. }
  cbn. rewrite flat_map_app. cbn. now rewrite app_nil_r.
Qed.



(** C7. The loop over the declared headers visits their names in
    increasing lexicographic order, each declared name once, the name
    Content-Type left out.  The turn of a header ends as [header_verdict]
    says and adds the calls of [header_calls], nothing else changing in the
    state.  The first header whose check fails, because it
    is required and missing or because its value does not match its schema,
    ends the validation with that failure: the calls made are the checks of
    the headers up to that one and no other, so no later header is checked
    and the body is neither read nor decoded nor checked, and the input is
    as it was. *)
Theorem headers_in_order_first_failure_aborts response :
  StronglySorted string_lt (header_names response) /\
  (forall k, k ∈ header_names response <->
             is_Some (Headers response !! k) /\ k <> "Content-Type") /\
  (forall header opts k st,
      validate_header response header opts k st =
        (header_verdict response header opts k,
         {| cell := cell st;
            calls := calls st ++ header_calls response header opts k |})) /\
  (forall input responseRef before k after e,
      resolves_to input responseRef ->
      ResponseRef_Value responseRef = Some response ->
      header_names response = before ++ k :: after ->
      Forall (header_passes response (Input_Header input)
                (schema_options (options_of input))) before ->
      header_verdict response (Input_Header input)
        (schema_options (options_of input)) k = Return e ->
      ValidateResponse input =
        (Value e,
         {| cell := input;
            calls := flat_map (header_calls response (Input_Header input)
                                 (schema_options (options_of input)))
                              (before ++ [k]) |}) /\
      Forall (header_value_check (Input_Header input)
                (schema_options (options_of input)))
             (calls (snd (ValidateResponse input))) /\
      (e = Some (MissingHeader k) \/
       exists cause, e = Some (HeaderSchemaMismatch k cause))).
Proof.
  split; [apply header_names_sorted|].
  split; [apply elem_of_header_names|].
  split; [intros; apply validate_header_spec|].
  intros input responseRef before k after e Hres Hval Hnames Hbefore Hk.
  rewrite (header_failure_aborts _ _ _ _ _ _ _ Hres Hval Hnames Hbefore Hk).
  split; [reflexivity|]. split.
  - cbn. apply Forall_flat_map, Forall_forall. intros k' _.
    apply header_calls_are_checks.
  - eapply header_verdict_failure, Hk.
Qed.

(** ** The body stage *)

Lemma getSchemaIdentifier_Some schema :
  getSchemaIdentifier (Some schema) = Value (schema_identifier schema).
Proof.
  unfold getSchemaIdentifier, schema_identifier.
  destruct (decide (TrimSpace (SchemaRef_Ref schema) = "")) as [He|Hne].
  - rewrite decide_False by (intros Hn; now apply Hn).
    destruct (SchemaRef_Value schema); [reflexivity|now rewrite He].
  - now rewrite decide_True.
Qed.

Lemma validate_body_spec header opts contentType schema st body :
  Body (cell st) = Some body ->
  validate_body header opts contentType schema st =
    let '(e, b, cs) := body_outcome header opts contentType schema body in
    (Return e, {| cell := with_Body (cell st) b; calls := calls st ++ cs |}).
Proof.
  intros Hb. unfold validate_body, body_outcome.
  unfold bind, get_Body, set_Body, deref, defer, call_ReadAll, call_decodeBody,
    call_VisitJSON, SetBodyBytes, set_Body, record, bind, ret, return_, ReadAll.
  rewrite Hb. cbn.
  destruct (failure body) as [err|]; cbn.
  { now rewrite <- app_assoc. }
  destruct (decodeBody _ _ _ _) as [value [err|]]; cbn.
  { now rewrite <- !app_assoc. }
  destruct (VisitJSON _ _ _) as [err|]; cbn.
  - rewrite getSchemaIdentifier_Some. cbn. now rewrite <- !app_assoc.
  - now rewrite <- !app_assoc.
Qed.

Lemma validate_body_nil header opts contentType schema st :
  Body (cell st) = None ->
  validate_body header opts contentType schema st = (Abort nil_Body, st).
Proof.
  intros Hb. unfold validate_body, bind, get_Body, set_Body, deref.
  rewrite Hb. destruct st as [[] cs]. cbn in *. now subst.
Qed.

Lemma validate_headers_result response header opts names st :
  let r := fst (validate_headers response header opts names st) in
  r = Next tt \/
  (exists k e, header_verdict response header opts k = Return e /\ r = Return e) \/
  (exists k p, header_verdict response header opts k = Abort p /\ r = Abort p).
Proof.
  revert st. induction names as [|k names IH]; intros st; [now left|].
  cbn zeta. rewrite validate_headers_cons. cbn zeta.
  destruct (header_verdict response header opts k) as [[]|e|p] eqn:Hk.
  - apply IH.
  - right; left. now exists k, e.
  - right; right. now exists k, p.
Qed.

(** ** Every way the function ends *)

Lemma ValidateResponse_ending input : ending input (ValidateResponse input).
Proof.
  destruct (request_method input) as [method|] eqn:Hm.
  2:{ (* a nil pointer on the way to the method *)
      unfold request_method in Hm.
      unfold ValidateResponse, run, ValidateResponse_body, bind, deref.
      destruct (Input_RequestValidationInput input) as [rvi|].
      - destruct (RVI_Request rvi); [discriminate|].
        apply ends_early. unfold early_result. set_solver.
      - apply ends_early. unfold early_result. set_solver. }
  destruct (exempt_dec method (Status input)) as [Hex|Hex].
  { rewrite (exempt_returns _ _ Hm Hex). apply ends_early.
    unfold early_result. set_solver. }
  destruct (declared_responses input) as [responses|] eqn:Hr.
  2:{ (* a nil pointer on the way to the response table *)
      unfold request_method in Hm. unfold declared_responses in Hr.
      unfold ValidateResponse, run, ValidateResponse_body, bind, deref, return_.
      destruct (Input_RequestValidationInput input) as [rvi|]; [|discriminate].
      destruct (RVI_Request rvi) as [req|]; [|discriminate].
      injection Hm as <-.
      destruct (decide (Method req = "HEAD")) as [Hh|_].
      { exfalso. apply Hex. now left. }
      destruct ((Status input =? StatusNotModified) || _ || _ || _) eqn:Hs.
      { exfalso. apply Hex. right. now apply never_validated_iff. }
      destruct (RVI_Route rvi) as [route|].
      - destruct (Route_Operation route); [discriminate|].
        apply ends_early. unfold early_result. set_solver.
      - apply ends_early. unfold early_result. set_solver. }
  rewrite (eligible_runs _ _ _ Hm Hex Hr).
  destruct (resolve responses (Status input)) as [|responseRef|] eqn:Hres.
  { apply ends_early. unfold early_result. set_solver. }
  2:{ destruct (IncludeResponseStatus _); apply ends_early;
        unfold early_result; set_solver. }
  assert (Hto : resolves_to input responseRef) by now exists method, responses.
  unfold validate_against.
  destruct (ResponseRef_Value responseRef) as [response|] eqn:Hval.
  2:{ apply ends_early. unfold early_result, UnresolvedResponse. set_solver. }
  set (header := Input_Header input). set (options := options_of input).
  set (opts := schema_options options). unfold run, bind.
  destruct (validate_headers_frame response header opts (header_names response)
              (initial input)) as (new & Hst & Hnew).
  pose proof (validate_headers_result response header opts (header_names response)
                (initial input)) as Hresult.
  fold (initial input).
  destruct (validate_headers response header opts (header_names response)
              (initial input)) as [r st1].
  cbn in Hst, Hresult. subst st1.
  assert (Hmid : forall r', middle_result response header opts r' ->
                 ending input (r', {| cell := input; calls := new |})).
  { intros r' Hr'. now apply ends_in_the_middle with responseRef response. }
  destruct r as [[]|e|p].
  - (* the headers pass *)
    clear Hresult. unfold validate_content, return_.
    destruct (ExcludeResponseBody options); [apply Hmid; now left|].
    destruct (bool_decide _ || false); [apply Hmid; now left|].
    destruct (Content_Get _ _) as [contentType|] eqn:Hct.
    2:{ apply Hmid. right; right; right. now left. }
    destruct (MediaType_Schema contentType) as [schema|] eqn:Hschema.
    2:{ apply Hmid. now left. }
    destruct (Body input) as [body|] eqn:Hbody.
    + rewrite (validate_body_spec _ _ _ _ _ body) by assumption.
      destruct (body_outcome header opts contentType schema body) as [[e' b] cs] eqn:Hout.
      cbn. now apply ends_in_the_body
             with responseRef response contentType schema body.
    + rewrite validate_body_nil by assumption. apply Hmid. now do 4 right.
  - apply Hmid. right; left.
    destruct Hresult as [|[(k & e' & Hk & [= <-])|(? & ? & _ & ?)]]; try discriminate.
    now exists k, e.
  - apply Hmid. right; right; left.
    destruct Hresult as [|[(? & ? & _ & ?)|(k & p' & Hk & [= <-])]]; try discriminate.
    now exists k, p.
Qed.

(** ** The body after the validation *)

Lemma header_checks_read_nothing header opts new :
  Forall (header_value_check header opts) new -> existsb is_ReadAll new = false.
Proof.
  induction 1 as [|c new (schema & k & _ & ->) _ IH]; [reflexivity|]. exact IH.
Qed.

(** C1, as amended.  ValidateResponse leaves every field of its input but
    Body as it was.  When it returns before the body is read, Body is
    untouched.  When it reads the body and the read succeeds, Body is
    repopulated from the captured bytes, on success and on the failures
    BodyDecodeFailure and BodySchemaMismatch alike, so that reading it
    afterwards yields exactly the original bytes.  When the read fails, the
    function returns BodyReadFailure and leaves Body nil: the assignment of
    line 133 is not undone. *)
Theorem body_restored_unless_read_fails input :
  let r := fst (ValidateResponse input) in
  let st := snd (ValidateResponse input) in
  (existsb is_ReadAll (calls st) = false /\ cell st = input) \/
  (exists body,
      Body input = Some body /\
      existsb is_ReadAll (calls st) = true /\
      match failure body with
      | None =>
          cell st = with_Body input (Some (NopCloser (content body))) /\
          ReadAll <$> Body (cell st) = Some (content body, None) /\
          ReadAll <$> Body input = Some (content body, None)
      | Some cause =>
          cell st = with_Body input None /\
          r = Value (Some {| Reason := "failed to read response body";
                             Err := Some cause |})
      end).
Proof.
  cbn zeta. destruct (ValidateResponse_ending input)
    as [r Hr|responseRef response r new _ _ Hnew _
       |responseRef response contentType schema body new e b cs _ _ _ _ Hbody Hnew Hout];
    cbn [fst snd cell calls].
  - left. now split.
  - left. split; [|reflexivity]. eapply header_checks_read_nothing, Hnew.
  - right. exists body. split; [assumption|]. split.
    { rewrite existsb_app. apply orb_true_iff. right.
      unfold body_outcome in Hout. destruct (failure body).
      - now injection Hout as _ _ <-.
      - destruct (snd _); [now injection Hout as _ _ <-|].
        now injection Hout as _ _ <-. }
    unfold body_outcome in Hout. rewrite Hbody.
    destruct (failure body) as [cause|] eqn:Hf.
    + now injection Hout as <- <- _.
    + assert (b = Some (NopCloser (content body))) as ->.
      { destruct (snd _); now injection Hout as _ <- _. }
      repeat split. cbn. unfold ReadAll. now rewrite Hf.
Qed.

(** ** The options of the schema checks *)

Lemma MultiErrors_in_schema_options options :
  MultiError options = true -> MultiErrors ∈ schema_options options.
Proof.
  unfold schema_options. intros ->. cbn.
  destruct (customSchemaErrorFunc options); set_solver.
Qed.

Lemma header_verdict_cause response header opts k e cause :
  header_verdict response header opts k = Return (Some e) ->
  Err e = Some cause ->
  exists schema,
    e = HeaderSchemaMismatch k cause /\
    VisitJSON schema (of_string (Header_Get header k)) opts = Some cause.
Proof.
  unfold header_verdict.
  destruct (index (Headers response) k) as [s|]; [|discriminate].
  destruct (HeaderRef_Value s) as [v|]; [|discriminate].
  destruct (decide (Header_Get header k = "")).
  - destruct (Required v); [|discriminate]. intros [= <-]. discriminate.
  - destruct (Header_Schema v) as [schema|]; [|discriminate].
    destruct (VisitJSON _ _ _) as [err|] eqn:Hv; [|discriminate].
    intros [= <-] [= <-]. now exists (SchemaRef_Value schema).
Qed.

(** C3, as amended.  With the option MultiError set, every schema check
    ValidateResponse makes carries the option MultiErrors, the check of each
    response header as much as the check of the body: the cause of a
    HeaderSchemaMismatch is what the engine returns under MultiErrors, as is
    the cause of a BodySchemaMismatch.  The failures of the other kinds do
    not come from the schema engine: they carry no cause, or the error of
    the body stream, or the error of the body decoder. *)
Theorem multi_error_reaches_header_checks input :
  MultiError (options_of input) = true ->
  let opts := schema_options (options_of input) in
  MultiErrors ∈ opts /\
  Forall aggregating (calls (snd (ValidateResponse input))) /\
  (forall e cause,
      fst (ValidateResponse input) = Value (Some e) ->
      Err e = Some cause ->
      (exists k schema h,
          e = HeaderSchemaMismatch k cause /\
          VisitJSON schema (of_string h) opts = Some cause) \/
      (exists schemaId schema value,
          e = BodySchemaMismatch schemaId cause /\
          VisitJSON schema value (opts ++ [VisitAsResponse]) = Some cause) \/
      (exists body,
          e = BodyReadFailure cause /\
          Body input = Some body /\ failure body = Some cause) \/
      (exists data schema encFn,
          e = BodyDecodeFailure cause /\
          snd (decodeBody data (Input_Header input) schema encFn) = Some cause)).
Proof.
  intros Hmulti opts.
  assert (Hin : MultiErrors ∈ opts) by now apply MultiErrors_in_schema_options.
  assert (Hagg : forall new,
             Forall (header_value_check (Input_Header input) opts) new ->
             Forall aggregating new).
  { intros new Hf. eapply Forall_impl; [exact Hf|].
    now intros c (schema & k & _ & ->). }
  split; [assumption|].
  destruct (ValidateResponse_ending input)
    as [r Hr|responseRef response r new _ _ Hnew Hmid
       |responseRef response contentType schema body new e b cs _ _ _ _ Hbody Hnew Hout];
    cbn [fst snd cell calls].
  - split; [constructor|]. intros e cause -> He.
    unfold early_result in Hr. rewrite !elem_of_cons, elem_of_nil in Hr.
    destruct Hr as [Hr|[Hr|[Hr|Hr]]];
      [discriminate Hr|injection Hr as ->; discriminate He
      |injection Hr as ->; discriminate He
      |repeat (destruct Hr as [Hr|Hr]; [discriminate Hr|]); contradiction].
  - split; [now apply Hagg|]. intros e cause -> He.
    destruct Hmid as [Hr|[(k & e' & Hk & Hr)|[(k & p & _ & Hr)|[Hr|Hr]]]];
      try discriminate Hr.
    + injection Hr as <-. left.
      destruct (header_verdict_cause _ _ _ _ _ _ Hk He) as (schema & -> & Hv).
      now exists k, schema, (Header_Get (Input_Header input) k).
    + injection Hr as ->. discriminate He.
  - fold opts in Hout, Hnew. unfold body_outcome in Hout.
    assert (Hlast : MultiErrors ∈ opts ++ [VisitAsResponse]) by set_solver.
    split.
    { apply Forall_app. split; [now apply Hagg|].
      destruct (failure body).
      - injection Hout as _ _ <-. repeat constructor.
      - destruct (snd _); injection Hout as _ _ <-; repeat constructor.
        exact Hlast. }
    intros e' cause [= ->] He. right.
    destruct (failure body) as [err|] eqn:Hf.
    { injection Hout as <- _ _. injection He as <-.
      right; left. now exists body. }
    destruct (snd (decodeBody _ _ _ _)) as [err|] eqn:Hd.
    { injection Hout as <- _ _. injection He as <-.
      right; right. eexists _, _, _. split; [reflexivity|exact Hd]. }
    destruct (VisitJSON _ _ _) as [err|] eqn:Hv; [|discriminate Hout].
    injection Hout as <- _ _. injection He as <-.
    left. eexists _, _, _. split; [reflexivity|exact Hv].
Qed.

(** ** The message of a body that does not match *)

Lemma last_char_app (s1 s2 : string) :
  s2 <> "" -> last_char (s1 +:+ s2) = last_char s2.
Proof.
  intros Hne. induction s1 as [|a s1 IH]; [reflexivity|].
  change (last_char (String a (s1 +:+ s2)) = last_char s2).
  destruct (s1 +:+ s2) as [|b t] eqn:Happ.
  - destruct s1; [contradiction|discriminate].
  - exact IH.
Qed.

Lemma prependSpaceIfNeeded_spec (value : string) :
  prependSpaceIfNeeded value = if decide (value = "") then "" else " " +:+ value.
Proof. destruct value; reflexivity. Qed.

Lemma schema_identifier_trimmed schema :
  (forall s, trimmed (TrimSpace s)) -> trimmed (schema_identifier schema).
Proof.
  intros Htrim. unfold schema_identifier.
  destruct (decide _); [apply Htrim|].
  destruct (SchemaRef_Value schema); [apply Htrim|]. now split.
Qed.

(** C8. A failure of ValidateResponse whose message starts with "response
    body doesn't match schema" comes from the check of the body against the
    schema of the matched content entry.  What follows these words is
    decided by the identifier of that schema: the trimmed reference path
    when it is not empty, else the trimmed title when the schema has a
    value, else nothing.  An empty identifier adds nothing to the message; an
    identifier that is not empty is added after one space, and since
    TrimSpace leaves no space at either end the space is the only one before
    the identifier and the message does not end in a space. *)
Theorem body_mismatch_message input e suffix :
  (forall s, trimmed (TrimSpace s)) ->
  fst (ValidateResponse input) = Value (Some e) ->
  Reason e = "response body doesn't match schema" +:+ suffix ->
  exists responseRef response contentType schema,
    resolves_to input responseRef /\
    ResponseRef_Value responseRef = Some response /\
    Content_Get (Content response) (Header_Get (Input_Header input) "Content-Type")
      = Some contentType /\
    MediaType_Schema contentType = Some schema /\
    getSchemaIdentifier (Some schema) = Value (schema_identifier schema) /\
    suffix = (if decide (schema_identifier schema = "") then ""
              else " " +:+ schema_identifier schema) /\
    trimmed (schema_identifier schema) /\
    last_char (Reason e) <> Some " "%char.
Proof.
  intros Htrim Hr Hreason.
  destruct (ValidateResponse_ending input)
    as [r Hearly|responseRef response r new _ _ _ Hmid
       |responseRef response contentType schema body new e' b cs
          Hto Hval Hct Hschema _ _ Hout];
    cbn [fst] in Hr; subst.
  - exfalso. unfold early_result in Hearly.
    rewrite !elem_of_cons, elem_of_nil in Hearly.
    destruct Hearly as [Hx|[Hx|[Hx|Hx]]];
      [discriminate Hx|injection Hx as ->; discriminate Hreason
      |injection Hx as ->; discriminate Hreason
      |repeat (destruct Hx as [Hx|Hx]; [discriminate Hx|]); contradiction].
  - exfalso.
    destruct Hmid as [Hx|[(k & e' & Hk & Hx)|[(k & p & _ & Hx)|[Hx|Hx]]]];
      try discriminate Hx.
    + injection Hx as <-.
      destruct (header_verdict_failure _ _ _ _ _ Hk) as [[= ->]|(cause & [= ->])];
        discriminate Hreason.
    + injection Hx as ->. discriminate Hreason.
  - injection Hr as ->. unfold body_outcome in Hout.
    destruct (failure body).
    { injection Hout as <- _ _. discriminate Hreason. }
    destruct (snd (decodeBody _ _ _ _)).
    { injection Hout as <- _ _. discriminate Hreason. }
    destruct (VisitJSON _ _ _); [|discriminate Hout].
    injection Hout as <- _ _. cbn in Hreason. injection Hreason as Hsuffix.
    exists responseRef, response, contentType, schema.
    repeat (split; [assumption|]).
    split; [apply getSchemaIdentifier_Some|].
    rewrite prependSpaceIfNeeded_spec in Hsuffix. symmetry in Hsuffix.
    split; [exact Hsuffix|].
    pose proof (schema_identifier_trimmed schema Htrim) as Hid.
    split; [exact Hid|]. cbn [Reason BodySchemaMismatch].
    rewrite prependSpaceIfNeeded_spec.
    destruct (decide (schema_identifier schema = "")) as [|Hne].
    + cbn. discriminate.
    + change (String " " (schema_identifier schema))
        with (" " +:+ schema_identifier schema).
      rewrite !last_char_app; [apply Hid|assumption|discriminate].
Qed.

(** ** The identifier of a nil schema *)

Lemma validate_content_without_schema header options opts response contentType st :
  Content_Get (Content response) (Header_Get header headerCT) = Some contentType ->
  MediaType_Schema contentType = None ->
  validate_content header options opts response st = (Return None, st).
Proof.
  intros Hct Hschema. unfold validate_content, return_.
  destruct (ExcludeResponseBody options); [reflexivity|].
  destruct (bool_decide _ || false); [reflexivity|].
  now rewrite Hct, Hschema.
Qed.

(** C10. [getSchemaIdentifier] is total on the schema references that are
    not nil and panics on nil: the nil check guards the read of the field
    Ref only, the trimmed reference of a nil schema is empty, and the field
    Value is then read through the nil pointer.  ValidateResponse never
    runs into that panic: a content entry whose schema is nil ends the
    validation with success before the body stage, and the only call of
    [getSchemaIdentifier] is in the body stage. *)
Theorem getSchemaIdentifier_nil_safety :
  getSchemaIdentifier None = Panic nil_SchemaRef /\
  (forall schema,
      getSchemaIdentifier (Some schema) = Value (schema_identifier schema)) /\
  (forall header options opts response contentType st,
      Content_Get (Content response) (Header_Get header headerCT) = Some contentType ->
      MediaType_Schema contentType = None ->
      validate_content header options opts response st = (Return None, st)) /\
  (forall input,
      match fst (ValidateResponse input) with
      | Panic nil_SchemaRef => False
      | _ => True
      end).
Proof.
  split; [reflexivity|]. split; [apply getSchemaIdentifier_Some|].
  split; [apply validate_content_without_schema|].
  intros input.
  destruct (ValidateResponse_ending input)
    as [r Hearly|responseRef response r new _ _ _ Hmid|]; cbn [fst].
  - unfold early_result in Hearly. rewrite !elem_of_cons, elem_of_nil in Hearly.
    repeat (destruct Hearly as [->|Hearly]; [exact I|]). contradiction.
  - destruct Hmid as [->|[(k & e & _ & ->)|[(k & p & Hk & ->)|[->| ->]]]];
      try exact I.
    unfold header_verdict in Hk.
    destruct (index (Headers response) k) as [s|]; [|now injection Hk as <-].
    destruct (HeaderRef_Value s) as [v|]; [|now injection Hk as <-].
    destruct (decide _).
    + now destruct (Required v).
    + destruct (Header_Schema v); [|now injection Hk as <-].
      now destruct (VisitJSON _ _ _).
  - exact I.
Qed.

(** ** A header whose value is empty *)

Lemma Header_Get_delete_empty (header : gmap string (list string)) k values k' :
  header !! CanonicalMIMEHeaderKey k = Some ("" :: values) ->
  Header_Get (delete (CanonicalMIMEHeaderKey k) header) k' = Header_Get header k'.
Proof.
  intros Hk. unfold Header_Get.
  destruct (decide (CanonicalMIMEHeaderKey k = CanonicalMIMEHeaderKey k')) as [<-|Hne].
  - now rewrite lookup_delete_eq, Hk.
  - now rewrite lookup_delete_ne.
Qed.

Lemma validate_headers_ext response header1 header2 opts names st :
  (forall k, Header_Get header1 k = Header_Get header2 k) ->
  validate_headers response header1 opts names st =
  validate_headers response header2 opts names st.
Proof.
  intros Hget. revert st. induction names as [|k names IH]; intros st; [reflexivity|].
  rewrite !validate_headers_cons. cbn zeta.
  unfold header_verdict, header_calls. rewrite !Hget.
  destruct (index (Headers response) k) as [s|]; [|reflexivity].
  destruct (HeaderRef_Value s) as [v|]; [|reflexivity].
  destruct (decide _); [destruct (Required v); [reflexivity|apply IH]|].
  destruct (Header_Schema v); [|reflexivity].
  destruct (VisitJSON _ _ _); [reflexivity|apply IH].
Qed.

(** C9. An observed header that is present with the empty string as its
    value is treated as an absent one.  When the declared header is
    required, ValidateResponse fails with MissingHeader for it (its turn
    reached, the headers before it passing); when it is not required, its
    turn of the loop makes no call and goes on.  The whole loop runs the same
    with the empty header as with the header deleted.  And no call of
    ValidateResponse hands an empty header value to the schema engine: each
    schema check is the check of a header value that is not empty, or the
    check of the body. *)
Theorem empty_header_value_is_absent :
  (forall input responseRef response before k after s v values,
      resolves_to input responseRef ->
      ResponseRef_Value responseRef = Some response ->
      header_names response = before ++ k :: after ->
      Forall (header_passes response (Input_Header input)
                (schema_options (options_of input))) before ->
      Headers response !! k = Some (Some s) ->
      HeaderRef_Value s = Some v ->
      Input_Header input !! CanonicalMIMEHeaderKey k = Some ("" :: values) ->
      if Required v then
        ValidateResponse input =
          (Value (Some {| Reason := "response header " +:+ Quote k +:+ " missing";
                          Err := None |}),
           {| cell := input;
              calls := flat_map (header_calls response (Input_Header input)
                                   (schema_options (options_of input))) before |})
      else
        forall st,
          validate_header response (Input_Header input)
            (schema_options (options_of input)) k st = (Next tt, st)) /\
  (forall response header opts names st k values,
      header !! CanonicalMIMEHeaderKey k = Some ("" :: values) ->
      validate_headers response header opts names st =
      validate_headers response (delete (CanonicalMIMEHeaderKey k) header)
        opts names st) /\
  (forall input,
      Forall (fun c =>
                header_value_check (Input_Header input)
                  (schema_options (options_of input)) c \/
                body_stage_call c)
             (calls (snd (ValidateResponse input)))).
Proof.
  split; [|split].
  - intros input responseRef response before k after s v values
      Hres Hval Hnames Hbefore Hs Hv Hempty.
    assert (Hget : Header_Get (Input_Header input) k = "").
    { unfold Header_Get. now rewrite Hempty. }
    destruct (Required v) eqn:Hreq.
    + erewrite header_failure_aborts; [|eassumption..|].
      * rewrite flat_map_app. cbn. unfold header_calls, index.
        rewrite Hs, Hv, Hget. cbn. now rewrite !app_nil_r.
      * unfold header_verdict, index. rewrite Hs, Hv, Hget, Hreq. reflexivity.
    + intros st. rewrite validate_header_spec.
      unfold header_verdict, header_calls, index. rewrite Hs, Hv, Hget, Hreq. cbn.
      rewrite app_nil_r. now destruct st.
  - intros response header opts names st k values Hempty.
    apply validate_headers_ext. intros k'. symmetry.
    eapply Header_Get_delete_empty, Hempty.
  - intros input.
    destruct (ValidateResponse_ending input)
      as [r _|responseRef response r new _ _ Hnew _
         |responseRef response contentType schema body new e b cs _ _ _ _ _ Hnew Hout];
      cbn [snd calls].
    + constructor.
    + eapply Forall_impl; [exact Hnew|]. intros c Hc. now left.
    + apply Forall_app. split.
      { eapply Forall_impl; [exact Hnew|]. intros c Hc. now left. }
      assert (Hlast : VisitAsResponse ∈
                schema_options (options_of input) ++ [VisitAsResponse]) by set_solver.
      unfold body_outcome in Hout. destruct (failure body).
      { injection Hout as _ _ <-.
        repeat (apply List.Forall_cons; [right; exact I|]). apply List.Forall_nil. }
      destruct (snd _); injection Hout as _ _ <-;
        repeat (apply List.Forall_cons; [right; first [exact I|exact Hlast]|]);
        apply List.Forall_nil.
Qed.

End properties.

(** * Further properties of the response validator *)

Section further_properties.
Context `{Collaborators}.

Lemma validate_headers_all_pass response header opts names st :
  Forall (header_passes response header opts) names ->
  validate_headers response header opts names st =
    (Next tt,
     {| cell := cell st;
        calls := calls st ++ flat_map (header_calls response header opts) names |}).
Proof.
  intros Hall.
  rewrite <- (app_nil_r names) at 1.
  now rewrite validate_headers_pass.
Qed.

Lemma validate_headers_Next_iff response header opts names st :
  fst (validate_headers response header opts names st) = Next tt <->
  Forall (header_passes response header opts) names.
Proof.
  split.
  - revert st. induction names as [|k names IH]; intros st; [constructor|].
    rewrite validate_headers_cons. cbn zeta.
    destruct (header_verdict response header opts k) as [[]|e|p] eqn:Hk;
      [|discriminate..].
    intros Hrest. constructor; [exact Hk|]. eapply IH, Hrest.
  - intros Hall. now rewrite validate_headers_all_pass.
Qed.

Lemma validate_headers_stops_at response header opts names st r :
  fst (validate_headers response header opts names st) = r ->
  r <> Next tt ->
  exists k,
    k ∈ names /\ header_verdict response header opts k = r.
Proof.
  revert st. induction names as [|k names IH]; intros st; [cbn; congruence|].
  rewrite validate_headers_cons. cbn zeta.
  destruct (header_verdict response header opts k) as [[]|e|p] eqn:Hk.
  - intros Hr Hne. destruct (IH _ Hr Hne) as (k' & Hin & Hk').
    exists k'. split; [now apply elem_of_cons; right|exact Hk'].
  - intros <- _. exists k. split; [now apply elem_of_cons; left|exact Hk].
  - intros <- _. exists k. split; [now apply elem_of_cons; left|exact Hk].
Qed.

Lemma resolved_stages input responseRef response :
  resolves_to input responseRef ->
  ResponseRef_Value responseRef = Some response ->
  ValidateResponse input =
    match validate_headers response (Input_Header input)
            (schema_options (options_of input)) (header_names response)
            (initial input) with
    | (Next _, st) =>
        finish (validate_content (Input_Header input) (options_of input)
                  (schema_options (options_of input)) response st)
    | (Return e, st) => (Value e, st)
    | (Abort p, st) => (Panic p, st)
    end.
Proof.
  intros Hres Hval. rewrite (resolved_runs _ _ _ Hres Hval).
  unfold run, bind, finish. fold (initial input).
  destruct (validate_headers _ _ _ _ _) as [[[]|e|p] st]; reflexivity.
Qed.

Lemma early_or_resolved input :
  (snd (ValidateResponse input) = initial input /\
   early_result (fst (ValidateResponse input))) \/
  exists responseRef response,
    resolves_to input responseRef /\ ResponseRef_Value responseRef = Some response.
Proof.
  destruct (ValidateResponse_ending input)
    as [r Hr|responseRef response r new Hto Hval _ _
       |responseRef response contentType schema body new e b cs Hto Hval _ _ _ _ _].
  - left. now split.
  - right. now exists responseRef, response.
  - right. now exists responseRef, response.
Qed.

Lemma validate_content_accepts header options response st :
  fst (validate_content header options (schema_options options) response st)
    = Return None <->
  body_accepted header options response (Body (cell st)).
Proof.
  unfold validate_content, body_accepted, return_.
  destruct (ExcludeResponseBody options) eqn:Hex.
  { cbn. split; [now left|reflexivity]. }
  rewrite orb_false_r.
  destruct (bool_decide (size (Content response) = 0%nat)) eqn:Hsize.
  { apply bool_decide_eq_true, map_size_empty_iff in Hsize.
    cbn. split; [right; now left|reflexivity]. }
  apply bool_decide_eq_false in Hsize.
  assert (Hne : Content response <> ∅).
  { intros He. apply Hsize. now apply map_size_empty_iff. }
  destruct (Content_Get _ _) as [contentType|] eqn:Hct.
  2:{ cbn. split; [discriminate|].
      intros [?|[?|(ct & ? & _)]]; [discriminate|contradiction|discriminate]. }
  destruct (MediaType_Schema contentType) as [schema|] eqn:Hschema.
  2:{ cbn. split; [|reflexivity]. intros _. right; right.
      exists contentType. split; [reflexivity|now left]. }
  destruct (Body (cell st)) as [stream|] eqn:Hbody.
  2:{ rewrite validate_body_nil by assumption. cbn. split; [discriminate|].
      intros [?|[?|(ct & [= <-] & [Hs|(? & ? & _ & ? & _)])]];
        [discriminate|contradiction|congruence|discriminate]. }
  rewrite (validate_body_spec _ _ _ _ _ stream) by assumption.
  unfold body_outcome.
  change (fun name => index (MediaType_Encoding contentType) name)
    with (encoding_of contentType).
  split.
  - intros Hret. right; right. exists contentType. split; [reflexivity|]. right.
    exists schema, stream.
    destruct (failure stream); [discriminate Hret|].
    destruct (snd (decodeBody _ _ _ _)); [discriminate Hret|].
    destruct (VisitJSON _ _ _); [discriminate Hret|].
    now repeat split.
  - intros [?|[?|(ct & [= <-] & [Hs|(schema' & stream' & Hs & [= <-] & Hf & Hd & Hv)])]];
      [discriminate|contradiction|congruence|].
    rewrite Hschema in Hs. injection Hs as <-.
    now rewrite Hf, Hd, Hv.
Qed.

Lemma validate_content_never_falls_through header options opts response st a :
  fst (validate_content header options opts response st) <> Next a.
Proof.
  unfold validate_content, return_.
  destruct (ExcludeResponseBody options); [discriminate|].
  destruct (bool_decide _ || false); [discriminate|].
  destruct (Content_Get _ _) as [contentType|]; [|discriminate].
  destruct (MediaType_Schema contentType) as [schema|]; [|discriminate].
  destruct (Body (cell st)) as [stream|] eqn:Hbody.
  - rewrite (validate_body_spec _ _ _ _ _ stream) by assumption.
    destruct (body_outcome _ _ _ _ _) as [[e b] cs]. discriminate.
  - rewrite validate_body_nil by assumption. discriminate.
Qed.

(** X1. ValidateResponse accepts exactly the responses that pass every check
    it makes.  For an input that gets past the eligibility filter and whose
    status resolves to a response, the result is nil if and only if every
    declared header the loop ranges over passes (absent and not required,
    or present and matching its schema) and the body is let through: body
    validation is switched off, no content is declared, the matched content
    entry has no schema, or the body is read and decoded without error and
    matches the schema. *)
Theorem accepts_exactly_what_passes input responseRef response :
  resolves_to input responseRef ->
  ResponseRef_Value responseRef = Some response ->
  fst (ValidateResponse input) = Value None <->
  Forall (header_passes response (Input_Header input)
            (schema_options (options_of input))) (header_names response) /\
  body_accepted (Input_Header input) (options_of input) response (Body input).
Proof.
  intros Hres Hval. rewrite (resolved_stages _ _ _ Hres Hval).
  pose proof (validate_headers_Next_iff response (Input_Header input)
                (schema_options (options_of input)) (header_names response)
                (initial input)) as Hnext.
  destruct (validate_headers_frame response (Input_Header input)
              (schema_options (options_of input)) (header_names response)
              (initial input)) as (new & Hst & _).
  pose proof (fun r => validate_headers_stops_at response (Input_Header input)
                (schema_options (options_of input)) (header_names response)
                (initial input) r) as Hstop.
  destruct (validate_headers _ _ _ _ _) as [[[]|e|p] st]; cbn in Hnext, Hst, Hstop.
  - subst st.
    pose proof (validate_content_accepts (Input_Header input) (options_of input)
                  response {| cell := input; calls := [] ++ new |}) as Hacc.
    pose proof (fun a => validate_content_never_falls_through (Input_Header input)
                  (options_of input) (schema_options (options_of input)) response
                  {| cell := input; calls := [] ++ new |} a) as Hfall.
    unfold finish.
    destruct (validate_content _ _ _ _ _) as [[a|e|p] st']; cbn in Hacc, Hfall |- *.
    + now destruct (Hfall a).
    + split.
      * intros [= ->]. split; [now apply Hnext|now apply Hacc].
      * intros [_ Hb]. apply Hacc in Hb. now injection Hb as ->.
    + split; [discriminate|]. intros [_ Hb]. apply Hacc in Hb. discriminate.
  - cbn. split.
    + intros [= ->]. destruct (Hstop _ eq_refl) as (k & _ & Hk); [discriminate|].
      destruct (header_verdict_failure _ _ _ _ _ Hk) as [?|(? & ?)]; discriminate.
    + intros [Hall _]. apply Hnext in Hall. discriminate.
  - cbn. split; [discriminate|]. intros [Hall _]. apply Hnext in Hall. discriminate.
Qed.




(** X3. The body stream is read at most once, and a stream that is read is
    closed.  The calls of ValidateResponse are the header checks, followed
    either by nothing, or by the read of the stream that was in input.Body,
    the decoding and the schema check if they are reached, and last the
    close of that same stream: on a read failure, a decode failure, a
    mismatch and a success alike. *)
Theorem body_stream_is_read_once_and_closed input :
  exists checks rest,
    calls (snd (ValidateResponse input)) = checks ++ rest /\
    Forall (header_value_check (Input_Header input)
              (schema_options (options_of input))) checks /\
    (rest = [] \/
     exists stream middle,
       Body input = Some stream /\
       rest = Call_ReadAll stream :: middle ++ [Call_Close stream] /\
       forallb (fun c => negb (is_stream_call c)) middle = true).
Proof.
  destruct (ValidateResponse_ending input)
    as [r _|responseRef response r new _ _ Hnew _
       |responseRef response contentType schema body new e b cs _ _ _ _ Hbody Hnew Hout];
    cbn [snd calls].
  - exists [], []. split; [reflexivity|]. split; [constructor|now left].
  - exists new, []. split; [now rewrite app_nil_r|]. split; [assumption|now left].
  - exists new, cs. split; [reflexivity|]. split; [assumption|]. right.
    exists body. unfold body_outcome in Hout.
    destruct (failure body).
    { injection Hout as _ _ <-. now exists []. }
    destruct (snd (decodeBody _ _ _ _)); injection Hout as _ _ <-.
    + now exists [Call_decodeBody (content body) schema].
    + eexists [Call_decodeBody (content body) schema; _]. now repeat split.
Qed.

(** X4. With the option ExcludeResponseBody set, ValidateResponse never
    touches the body: the input is as it was, every call made is the check
    of a header value, and a failure is one of UndocumentedStatus,
    UnresolvedResponse, MissingHeader and HeaderSchemaMismatch, so neither
    the content type nor the bytes of the body can make the validation
    fail. *)
Theorem excluded_body_is_never_touched input :
  ExcludeResponseBody (options_of input) = true ->
  cell (snd (ValidateResponse input)) = input /\
  Forall (header_value_check (Input_Header input)
            (schema_options (options_of input)))
         (calls (snd (ValidateResponse input))) /\
  (forall e,
      fst (ValidateResponse input) = Value (Some e) ->
      e = UndocumentedStatus \/ e = UnresolvedResponse \/
      exists k, e = MissingHeader k \/ exists cause, e = HeaderSchemaMismatch k cause).
Proof.
  intros Hex.
  destruct (early_or_resolved input) as [[Hst Hearly]|(responseRef & response & Hto & Hval)].
  - rewrite Hst. split; [reflexivity|]. split; [constructor|].
    intros e He. rewrite He in Hearly. unfold early_result in Hearly.
    rewrite !elem_of_cons, elem_of_nil in Hearly.
    destruct Hearly as [Hx|[Hx|[Hx|Hx]]];
      [discriminate Hx|injection Hx as ->; now left
      |injection Hx as ->; right; now left
      |repeat (destruct Hx as [Hx|Hx]; [discriminate Hx|]); contradiction].
  - rewrite (resolved_stages _ _ _ Hto Hval).
    destruct (validate_headers_frame response (Input_Header input)
                (schema_options (options_of input)) (header_names response)
                (initial input)) as (new & Hst & Hnew).
    pose proof (fun r => validate_headers_stops_at response (Input_Header input)
                  (schema_options (options_of input)) (header_names response)
                  (initial input) r) as Hstop.
    destruct (validate_headers _ _ _ _ _) as [[[]|e|p] st]; cbn in Hst, Hstop; subst st.
    + unfold validate_content, return_, finish. rewrite Hex. cbn.
      split; [reflexivity|]. split; [assumption|]. discriminate.
    + cbn. split; [reflexivity|]. split; [assumption|].
      intros e' [= ->]. destruct (Hstop _ eq_refl) as (k & _ & Hk); [discriminate|].
      right; right. exists k.
      destruct (header_verdict_failure _ _ _ _ _ Hk) as [[= ->]|(cause & [= ->])].
      * now left.
      * right. now exists cause.
    + cbn. split; [reflexivity|]. split; [assumption|]. discriminate.
Qed.

Lemma reaches_content input responseRef response :
  resolves_to input responseRef ->
  ResponseRef_Value responseRef = Some response ->
  Forall (header_passes response (Input_Header input)
            (schema_options (options_of input))) (header_names response) ->
  ValidateResponse input =
    finish (validate_content (Input_Header input) (options_of input)
              (schema_options (options_of input)) response
              {| cell := input;
                 calls := flat_map (header_calls response (Input_Header input)
                                      (schema_options (options_of input)))
                                   (header_names response) |}).
Proof.
  intros Hto Hval Hall. rewrite (resolved_stages _ _ _ Hto Hval).
  now rewrite validate_headers_all_pass.
Qed.

(** X5. When content is declared and body validation is on, an observed
    Content-Type that matches no declared content entry makes
    ValidateResponse fail, once the headers have passed; the message quotes
    the raw value of the Content-Type header through the verb %q, be it the
    empty string of an absent header.  The body is not read. *)
Theorem undeclared_content_type_fails input responseRef response :
  resolves_to input responseRef ->
  ResponseRef_Value responseRef = Some response ->
  Forall (header_passes response (Input_Header input)
            (schema_options (options_of input))) (header_names response) ->
  ExcludeResponseBody (options_of input) = false ->
  Content response <> ∅ ->
  Content_Get (Content response) (Header_Get (Input_Header input) "Content-Type")
    = None ->
  ValidateResponse input =
    (Value (Some {| Reason := "response header Content-Type has unexpected value: "
                              +:+ Quote (Header_Get (Input_Header input) "Content-Type");
                    Err := None |}),
     {| cell := input;
        calls := flat_map (header_calls response (Input_Header input)
                             (schema_options (options_of input)))
                          (header_names response) |}).
Proof.
  intros Hto Hval Hall Hex Hne Hct.
  rewrite (reaches_content _ _ _ Hto Hval Hall).
  unfold validate_content, return_, finish. rewrite Hex.
  rewrite bool_decide_eq_false_2.
  2:{ intros Hz. now apply map_size_empty_iff in Hz. }
  cbn. fold headerCT in Hct. now rewrite Hct.
Qed.

(** X6. A body that the decoder rejects makes ValidateResponse fail with
    the reason "failed to decode response body" and the decoder's error as
    its cause.  The schema engine is not called on the body, the stream is
    read and closed, and input.Body is repopulated with the bytes read. *)
Theorem undecodable_body_fails
    input responseRef response contentType schema stream value cause :
  resolves_to input responseRef ->
  ResponseRef_Value responseRef = Some response ->
  Forall (header_passes response (Input_Header input)
            (schema_options (options_of input))) (header_names response) ->
  ExcludeResponseBody (options_of input) = false ->
  Content response <> ∅ ->
  Content_Get (Content response) (Header_Get (Input_Header input) "Content-Type")
    = Some contentType ->
  MediaType_Schema contentType = Some schema ->
  Body input = Some stream ->
  failure stream = None ->
  decodeBody (content stream) (Input_Header input) schema (encoding_of contentType)
    = (value, Some cause) ->
  ValidateResponse input =
    (Value (Some {| Reason := "failed to decode response body"; Err := Some cause |}),
     {| cell := with_Body input (Some (NopCloser (content stream)));
        calls := flat_map (header_calls response (Input_Header input)
                             (schema_options (options_of input)))
                          (header_names response)
                 ++ [Call_ReadAll stream;
                     Call_decodeBody (content stream) schema;
                     Call_Close stream] |}).
Proof.
  intros Hto Hval Hall Hex Hne Hct Hschema Hbody Hf Hd.
  rewrite (reaches_content _ _ _ Hto Hval Hall).
  unfold validate_content, return_. rewrite Hex.
  rewrite bool_decide_eq_false_2.
  2:{ intros Hz. now apply map_size_empty_iff in Hz. }
  cbn [orb]. fold headerCT in Hct. rewrite Hct, Hschema.
  rewrite (validate_body_spec _ _ _ _ _ stream) by assumption.
  unfold body_outcome, encoding_of in *. rewrite Hf, Hd. reflexivity.
Qed.

End further_properties.

(** * Properties of security_scheme.go *)

Section security_properties.
Import security.
Context `{Collaborators} `{!Validators}.

Lemma nonempty_true (s : string) : nonempty s = true <-> s <> "".
Proof.
  unfold nonempty. destruct (String.eqb_spec s ""); cbn; split; congruence.
Qed.

Lemma nonempty_false (s : string) : nonempty s = false <-> s = "".
Proof.
  unfold nonempty. destruct (String.eqb_spec s ""); cbn; split; congruence.
Qed.

Ltac string_cases :=
  repeat match goal with
    | |- context [String.eqb ?a ?b] => destruct (String.eqb_spec a b); subst; cbn
    end.

Ltac break_hypotheses :=
  repeat match goal with
    | H : _ \/ _ |- _ => destruct H
    | H : _ /\ _ |- _ => destruct H
    | H : exists _, _ |- _ => destruct H
    end;
  simplify_eq; try congruence.

Ltac pick_case :=
  first [ left; solve [intuition eauto]
        | right; left; solve [intuition eauto]
        | right; right; left; solve [intuition eauto]
        | do 3 right; solve [intuition eauto] ].

(** X7. A security scheme validates in four cases and no other: type
    apiKey with in among query, header and cookie and with a name; type
    http with one of the schemes bearer, basic, negotiate and digest, with
    neither in nor name; type oauth2 with flows that validate, with neither
    in nor name; type openIdConnect with an OpenID Connect URL, with neither
    in nor name.  A bearer format is accepted for the scheme bearer of http
    only, and flows for oauth2 only. *)
Theorem security_scheme_validates_iff ctx opts ss :
  Validate ctx opts ss = None <->
  (Type_ ss = "apiKey" /\ In_ ss ∈ ["query"; "header"; "cookie"] /\ Name ss <> "" /\
   BearerFormat ss = "" /\ Flows ss = None) \/
  (Type_ ss = "http" /\ Scheme ss ∈ ["bearer"; "basic"; "negotiate"; "digest"] /\
   In_ ss = "" /\ Name ss = "" /\ (BearerFormat ss = "" \/ Scheme ss = "bearer") /\
   Flows ss = None) \/
  (Type_ ss = "oauth2" /\ In_ ss = "" /\ Name ss = "" /\ BearerFormat ss = "" /\
   exists flows, Flows ss = Some flows /\
                 OAuthFlows_Validate (WithValidationOptions ctx opts) [] flows = None) \/
  (Type_ ss = "openIdConnect" /\ OpenIdConnectUrl ss <> "" /\ In_ ss = "" /\
   Name ss = "" /\ BearerFormat ss = "" /\ Flows ss = None).
Proof.
  destruct ss as [ty desc name i scheme bf flows url].
  unfold Validate, type_flags, nonempty. cbn.
  rewrite !elem_of_cons, !elem_of_nil.
  destruct flows as [f|]; [destruct (OAuthFlows_Validate _ [] f) eqn:Hf|].
  all: string_cases.
  all: try rewrite Hf.
  all: split; [try discriminate; intros _|intros; try reflexivity].
  all: try (break_hypotheses; fail).
  all: pick_case.
Qed.

(** X8. The constructors and the setters against Validate.  The schemes of
    NewCSRFSecurityScheme and NewJWTSecurityScheme validate; the scheme of
    NewOIDCSecurityScheme validates exactly when the URL is not empty; the
    scheme of NewSecurityScheme does not, for its empty type.  An apiKey
    scheme built with WithType, WithIn and WithName validates exactly when
    the place is query, header or cookie and the name is not empty; an http
    scheme built with WithType, WithScheme and WithBearerFormat validates
    exactly when the scheme is one of the four and the bearer format is
    empty or the scheme is bearer. *)
Theorem constructors_against_Validate ctx opts :
  Validate ctx opts NewCSRFSecurityScheme = None /\
  Validate ctx opts NewJWTSecurityScheme = None /\
  (forall oidcUrl,
      Validate ctx opts (NewOIDCSecurityScheme oidcUrl) = None <-> oidcUrl <> "") /\
  Validate ctx opts NewSecurityScheme
    = Some ("security scheme 'type' can't be " +:+ Quote "") /\
  (forall place name,
      Validate ctx opts (WithName name (WithIn place (WithType "apiKey" NewSecurityScheme)))
        = None <->
      place ∈ ["query"; "header"; "cookie"] /\ name <> "") /\
  (forall scheme format,
      Validate ctx opts
        (WithBearerFormat format (WithScheme scheme (WithType "http" NewSecurityScheme)))
        = None <->
      scheme ∈ ["bearer"; "basic"; "negotiate"; "digest"] /\
      (format = "" \/ scheme = "bearer")).
Proof.
  split; [reflexivity|]. split; [reflexivity|].
  split.
  { intros oidcUrl. unfold Validate, type_flags. cbn.
    destruct (String.eqb_spec oidcUrl ""); cbn; split; congruence. }
  split; [reflexivity|]. split.
  - intros place name. unfold Validate, type_flags, nonempty. cbn.
    rewrite !elem_of_cons, !elem_of_nil.
    string_cases; split; try discriminate; try reflexivity; try tauto;
      intros [Hp Hn]; try congruence; intuition congruence.
  - intros scheme format. unfold Validate, type_flags, nonempty. cbn.
    rewrite !elem_of_cons, !elem_of_nil.
    string_cases; split; try discriminate; try reflexivity; try tauto;
      intros [Hs Hf]; intuition congruence.
Qed.

Lemma check_url_None field url in_ :
  check_url field url in_ = None <->
  if in_ then url_ok url else url = "".
Proof.
  unfold check_url, url_ok, nonempty.
  destruct (String.eqb_spec url ""), in_; cbn;
    try destruct (url_Parse url); split; try tauto; try congruence;
    intros []; congruence.
Qed.

Lemma OAuthFlow_Validate_None ctx opts flow :
  OAuthFlow_Validate ctx opts flow = None <->
  (RefreshURL flow = "" \/ url_Parse (RefreshURL flow) = None) /\ Scopes flow <> ∅.
Proof.
  unfold OAuthFlow_Validate, nonempty.
  destruct (String.eqb_spec (RefreshURL flow) "") as [He|Hne]; cbn.
  - destruct (decide (size (Scopes flow) = 0%nat)) as [Hz|Hz].
    + apply map_size_empty_iff in Hz. split; [discriminate|]. tauto.
    + split; [|reflexivity]. intros _. split; [now left|].
      intros Hempty. apply Hz. now apply map_size_empty_iff.
  - destruct (url_Parse (RefreshURL flow)) as [err|].
    + split; [discriminate|]. intros [[?|?] _]; congruence.
    + destruct (decide (size (Scopes flow) = 0%nat)) as [Hz|Hz].
      * apply map_size_empty_iff in Hz. split; [discriminate|]. tauto.
      * split; [|reflexivity]. intros _. split; [now right|].
        intros Hempty. apply Hz. now apply map_size_empty_iff.
Qed.

(** X9. Which URLs each OAuth flow must have.  A flow validates as an
    implicit flow exactly when its authorization URL is set and parses and
    its token URL is empty; as a password or a client-credentials flow when
    its authorization URL is empty and its token URL is set and parses; as an
    authorization-code flow when both are set and parse; in each case its
    refresh URL must be empty or parse and it must declare a scope.  The
    public Validate checks the refresh URL and the scopes only. *)
Theorem oauth_flow_validates_iff ctx opts flow :
  (forall typ,
      OAuthFlow_validate ctx typ opts flow = None <->
      urls_fit typ flow /\
      (RefreshURL flow = "" \/ url_Parse (RefreshURL flow) = None) /\
      Scopes flow <> ∅) /\
  (OAuthFlow_Validate ctx opts flow = None <->
   (RefreshURL flow = "" \/ url_Parse (RefreshURL flow) = None) /\ Scopes flow <> ∅).
Proof.
  split; [|apply OAuthFlow_Validate_None].
  intros typ. unfold OAuthFlow_validate.
  pose proof (check_url_None "authorizationUrl" (AuthorizationURL flow)
                (typeIn typ [oAuthFlowTypeImplicit; oAuthFlowAuthorizationCode]))
    as Hauth.
  pose proof (check_url_None "tokenUrl" (TokenURL flow)
                (typeIn typ [oAuthFlowTypePassword; oAuthFlowTypeClientCredentials;
                             oAuthFlowAuthorizationCode])) as Htoken.
  rewrite <- (OAuthFlow_Validate_None (WithValidationOptions ctx opts) opts flow).
  destruct (check_url "authorizationUrl" _ _) as [e1|].
  { split; [discriminate|]. intros [Hfit _].
    destruct typ; cbn in Hauth, Hfit; destruct Hauth as [_ Hauth];
      (discriminate Hauth; tauto). }
  destruct (check_url "tokenUrl" _ _) as [e2|].
  { split; [discriminate|]. intros [Hfit _].
    destruct typ; cbn in Htoken, Hfit; destruct Htoken as [_ Htoken];
      (discriminate Htoken; tauto). }
  destruct Hauth as [Hauth _], Htoken as [Htoken _].
  specialize (Hauth eq_refl). specialize (Htoken eq_refl).
  split.
  - intros Hv. split; [|exact Hv]. destruct typ; cbn in Hauth, Htoken |- *; tauto.
  - tauto.
Qed.

Lemma check_flow_None ctx opts name typ v :
  check_flow ctx opts name typ v = None <-> flow_ok ctx opts typ v.
Proof.
  unfold check_flow, flow_ok. destruct v as [flow|]; [|tauto].
  destruct (OAuthFlow_validate ctx typ opts flow); split; congruence.
Qed.

(** X10. The flows of an OAuthFlows object are validated in the order
    implicit, password, clientCredentials, authorizationCode, each as a flow
    of its own type, and the first that fails ends the validation with its
    error, named after the flow.  The object validates exactly when every
    flow that is set validates; an object with no flow set validates, and so
    does an oauth2 security scheme whose flows hold no flow. *)
Theorem oauth_flows_validate_in_order ctx opts flows :
  let ctx' := WithValidationOptions ctx opts in
  (OAuthFlows_Validate ctx opts flows = None <->
   flow_ok ctx' opts oAuthFlowTypeImplicit (Flows_Implicit flows) /\
   flow_ok ctx' opts oAuthFlowTypePassword (Flows_Password flows) /\
   flow_ok ctx' opts oAuthFlowTypeClientCredentials (Flows_ClientCredentials flows) /\
   flow_ok ctx' opts oAuthFlowAuthorizationCode (Flows_AuthorizationCode flows)) /\
  (forall flow err,
      Flows_Implicit flows = Some flow ->
      OAuthFlow_validate ctx' oAuthFlowTypeImplicit opts flow = Some err ->
      OAuthFlows_Validate ctx opts flows
        = Some ("the OAuth flow 'implicit' is invalid: " +:+ err)) /\
  (forall flow err,
      flow_ok ctx' opts oAuthFlowTypeImplicit (Flows_Implicit flows) ->
      Flows_Password flows = Some flow ->
      OAuthFlow_validate ctx' oAuthFlowTypePassword opts flow = Some err ->
      OAuthFlows_Validate ctx opts flows
        = Some ("the OAuth flow 'password' is invalid: " +:+ err)) /\
  (forall flow err,
      flow_ok ctx' opts oAuthFlowTypeImplicit (Flows_Implicit flows) ->
      flow_ok ctx' opts oAuthFlowTypePassword (Flows_Password flows) ->
      Flows_ClientCredentials flows = Some flow ->
      OAuthFlow_validate ctx' oAuthFlowTypeClientCredentials opts flow = Some err ->
      OAuthFlows_Validate ctx opts flows
        = Some ("the OAuth flow 'clientCredentials' is invalid: " +:+ err)) /\
  (forall flow err,
      flow_ok ctx' opts oAuthFlowTypeImplicit (Flows_Implicit flows) ->
      flow_ok ctx' opts oAuthFlowTypePassword (Flows_Password flows) ->
      flow_ok ctx' opts oAuthFlowTypeClientCredentials (Flows_ClientCredentials flows) ->
      Flows_AuthorizationCode flows = Some flow ->
      OAuthFlow_validate ctx' oAuthFlowAuthorizationCode opts flow = Some err ->
      OAuthFlows_Validate ctx opts flows
        = Some ("the OAuth flow 'authorizationCode' is invalid: " +:+ err)) /\
  (Flows_Implicit flows = None -> Flows_Password flows = None ->
   Flows_ClientCredentials flows = None -> Flows_AuthorizationCode flows = None ->
   OAuthFlows_Validate ctx opts flows = None /\
   forall ctx0 opts0 description,
     Validate ctx0 opts0
       {| Type_ := "oauth2"; Description := description; Name := ""; In_ := "";
          Scheme := ""; BearerFormat := ""; Flows := Some flows;
          OpenIdConnectUrl := "" |} = None).
Proof.
  cbn zeta. unfold OAuthFlows_Validate.
  set (ctx' := WithValidationOptions ctx opts).
  pose proof (check_flow_None ctx' opts "implicit" oAuthFlowTypeImplicit
                (Flows_Implicit flows)) as K1.
  pose proof (check_flow_None ctx' opts "password" oAuthFlowTypePassword
                (Flows_Password flows)) as K2.
  pose proof (check_flow_None ctx' opts "clientCredentials"
                oAuthFlowTypeClientCredentials (Flows_ClientCredentials flows)) as K3.
  pose proof (check_flow_None ctx' opts "authorizationCode"
                oAuthFlowAuthorizationCode (Flows_AuthorizationCode flows)) as K4.
  split; [|split; [|split; [|split; [|split]]]].
  - destruct (check_flow ctx' opts "implicit" _ _).
    { split; [discriminate|]. intros [Hok _]. apply K1 in Hok. discriminate. }
    destruct (check_flow ctx' opts "password" _ _).
    { split; [discriminate|]. intros (_ & Hok & _). apply K2 in Hok. discriminate. }
    destruct (check_flow ctx' opts "clientCredentials" _ _).
    { split; [discriminate|]. intros (_ & _ & Hok & _). apply K3 in Hok. discriminate. }
    rewrite K4. tauto.
  - intros flow err Hflow Herr. unfold check_flow at 1. now rewrite Hflow, Herr.
  - intros flow err Hok1 Hflow Herr. apply K1 in Hok1. rewrite Hok1.
    unfold check_flow at 1. now rewrite Hflow, Herr.
  - intros flow err Hok1 Hok2 Hflow Herr. apply K1 in Hok1. apply K2 in Hok2.
    rewrite Hok1, Hok2. unfold check_flow at 1. now rewrite Hflow, Herr.
  - intros flow err Hok1 Hok2 Hok3 Hflow Herr.
    apply K1 in Hok1. apply K2 in Hok2. apply K3 in Hok3.
    rewrite Hok1, Hok2, Hok3. unfold check_flow. now rewrite Hflow, Herr.
  - intros Hn1 Hn2 Hn3 Hn4.
    assert (Hall : match check_flow ctx' opts "implicit" oAuthFlowTypeImplicit
                           (Flows_Implicit flows) with
                   | Some err => Some err
                   | None =>
                       match check_flow ctx' opts "password" oAuthFlowTypePassword
                               (Flows_Password flows) with
                       | Some err => Some err
                       | None =>
                           match check_flow ctx' opts "clientCredentials"
                                   oAuthFlowTypeClientCredentials
                                   (Flows_ClientCredentials flows) with
                           | Some err => Some err
                           | None =>
                               check_flow ctx' opts "authorizationCode"
                                 oAuthFlowAuthorizationCode
                                 (Flows_AuthorizationCode flows)
                           end
                       end
                   end = None).
    { now rewrite Hn1, Hn2, Hn3, Hn4. }
    split; [exact Hall|].
    intros ctx0 opts0 description.
    unfold Validate, type_flags, OAuthFlows_Validate. cbn.
    rewrite Hn1, Hn2, Hn3, Hn4. reflexivity.
Qed.

(** X11. The lookup of a token in the security schemes.  It fails, with a
    message that quotes the token, exactly when the map holds no entry or a
    nil entry for the token.  After an entry is stored under a token, the
    lookup of the token returns the reference of the entry when it has one,
    whatever its value, and its value otherwise; the lookup of any other
    token is as before. *)
Theorem security_schemes_lookup (s : gmap string (option SecuritySchemeRef)) token :
  (JSONLookup s token = NoField ("object has no field " +:+ Quote token) <->
   index s token = None) /\
  (index s token = None \/
   exists ref, index s token = Some ref /\
               JSONLookup s token =
                 if decide (SecuritySchemeRef_Ref ref <> "")
                 then IsRef (SecuritySchemeRef_Ref ref)
                 else IsValue (SecuritySchemeRef_Value ref)) /\
  (forall ref,
      JSONLookup (<[token := Some ref]> s) token =
        if decide (SecuritySchemeRef_Ref ref <> "")
        then IsRef (SecuritySchemeRef_Ref ref)
        else IsValue (SecuritySchemeRef_Value ref)) /\
  (forall entry other,
      token <> other ->
      JSONLookup (<[token := entry]> s) other = JSONLookup s other) /\
  JSONLookup (<[token := None]> s) token = JSONLookup (delete token s) token.
Proof.
  unfold JSONLookup, index. split; [|split; [|split; [|split]]].
  - destruct (s !! token) as [[ref|]|]; [|tauto..].
    destruct (decide _); split; discriminate.
  - destruct (s !! token) as [[ref|]|]; [|now left..].
    right. now exists ref.
  - intros ref. now rewrite lookup_insert_eq.
  - intros entry other Hne. now rewrite lookup_insert_ne.
  - now rewrite lookup_insert_eq, lookup_delete_eq.
Qed.

End security_properties.

(** * Properties of media_type.go *)

Section media_properties.
Import media.
Context `{Collaborators} `{!Validators}.

(** X12. The fields example and examples exclude each other, but only for
    a media type with a schema.  When the schema validates and both fields
    are set, Validate returns the error "example and examples are mutually
    exclusive", whether the validation of examples is disabled or not and
    whatever the examples hold: none is looked at.  So WithExample makes a
    media type that has a valid schema and an example invalid.  Without a
    schema, or on a nil receiver, Validate returns nil, both fields set or
    not. *)
Theorem example_and_examples_exclude_each_other ctx opts :
  Validate ctx opts None = Returned None /\
  (forall mediaType,
      mt_Schema mediaType = None ->
      Validate ctx opts (Some mediaType) = Returned None) /\
  (forall mediaType schema example examples,
      mt_Schema mediaType = Some schema ->
      SchemaRef_Validate (WithValidationOptions ctx opts) schema = None ->
      mt_Example mediaType = Some example ->
      mt_Examples mediaType = Some examples ->
      Validate ctx opts (Some mediaType)
        = Returned (Some "example and examples are mutually exclusive")) /\
  (forall mediaType schema example name value,
      mt_Schema mediaType = Some schema ->
      SchemaRef_Validate (WithValidationOptions ctx opts) schema = None ->
      mt_Example mediaType = Some example ->
      Validate ctx opts (Some (WithExample name value mediaType))
        = Returned (Some "example and examples are mutually exclusive")).
Proof.
  split; [reflexivity|]. split.
  { intros mediaType Hs. unfold Validate. now rewrite Hs. }
  split.
  - intros mediaType schema example examples Hs Hv He Hes.
    unfold Validate. now rewrite Hs, Hv, He, Hes.
  - intros mediaType schema example name value Hs Hv He.
    unfold Validate, WithExample. cbn. now rewrite Hs, Hv, He.
Qed.

(** X13. With the validation of examples disabled, Validate checks the
    schema and the exclusion of example and examples, and nothing else: it
    returns the error of the schema if it has one, else the exclusion error
    if both fields are set, else nil.  No example is validated, and no nil
    entry of the examples can make it panic. *)
Theorem disabled_examples_are_not_validated ctx opts mediaType schema :
  mt_Schema mediaType = Some schema ->
  ExamplesValidationDisabled (WithValidationOptions ctx opts) = true ->
  Validate ctx opts (Some mediaType) =
    match SchemaRef_Validate (WithValidationOptions ctx opts) schema with
    | Some err => Returned (Some err)
    | None =>
        if bool_decide (is_Some (mt_Example mediaType) /\ is_Some (mt_Examples mediaType))
        then Returned (Some "example and examples are mutually exclusive")
        else Returned None
    end.
Proof.
  intros Hs Hd. unfold Validate. rewrite Hs, Hd.
  destruct (SchemaRef_Validate _ schema); [reflexivity|].
  destruct (mt_Example mediaType) as [example|], (mt_Examples mediaType) as [examples|].
  - rewrite bool_decide_eq_true_2; [reflexivity|]. split; eauto.
  - rewrite bool_decide_eq_false_2; [reflexivity|]. intros [_ []]. discriminate.
  - rewrite bool_decide_eq_false_2; [reflexivity|]. intros [[] _]. discriminate.
  - rewrite bool_decide_eq_false_2; [reflexivity|]. intros [[] _]. discriminate.
Qed.







(** X15. WithSchema against the response validator.  WithSchema(nil) leaves
    the media type without a schema: the validator then lets any body
    through without reading it, and the identifier of that nil schema cannot
    be asked for, as getSchemaIdentifier panics on it.  WithSchema(schema)
    wraps the schema in a reference with an empty path, so the identifier of
    the schema of the media type is the trimmed title of the schema,
    TrimSpace leaving the empty string empty. *)
Theorem WithSchema_decides_the_body_check mediaType :
  TrimSpace "" = "" ->
  mt_Schema (WithSchema None mediaType) = None /\
  getSchemaIdentifier (mt_Schema (WithSchema None mediaType)) = Panic nil_SchemaRef /\
  (forall header options opts response st,
      Content_Get (Content response) (Header_Get header headerCT)
        = Some (to_validator (WithSchema None mediaType)) ->
      validate_content header options opts response st = (Return None, st)) /\
  (forall schema,
      mt_Schema (WithSchema (Some schema) mediaType)
        = Some {| SchemaRef_Ref := ""; SchemaRef_Value := Some schema |} /\
      getSchemaIdentifier (mt_Schema (WithSchema (Some schema) mediaType))
        = Value (TrimSpace (Title schema))).
Proof.
  intros Htrim. split; [reflexivity|]. split; [reflexivity|]. split.
  { intros header options opts response st Hct.
    now apply validate_content_without_schema
      with (contentType := to_validator (WithSchema None mediaType)). }
  intros schema. split; [reflexivity|].
  cbn. unfold getSchemaIdentifier. cbn. rewrite Htrim. reflexivity.
Qed.

(** X16. WithEncoding and WithExample store under a name and leave the rest
    alone, whether the map was nil or not.  After WithEncoding(name, enc)
    the lookup function the response validator hands to the body decoder
    gives enc for the name and what it gave before for every other name.
    After WithExample(name, value) the examples are not nil and hold under
    the name a reference with no path to NewExample(value), every other
    name being as before; a second WithExample under the same name
    replaces the first.  Neither touches the schema. *)
Theorem WithEncoding_and_WithExample_store name mediaType :
  (forall enc,
      encoding_of (to_validator (WithEncoding name enc mediaType)) name = enc /\
      (forall other,
          name <> other ->
          encoding_of (to_validator (WithEncoding name enc mediaType)) other
            = encoding_of (to_validator mediaType) other) /\
      mt_Schema (WithEncoding name enc mediaType) = mt_Schema mediaType) /\
  (forall value,
      exists examples,
        mt_Examples (WithExample name value mediaType) = Some examples /\
        examples !! name
          = Some (Some {| ExampleRef_Ref := "";
                          ExampleRef_Value := Some (NewExample value) |}) /\
        (forall other,
            name <> other ->
            examples !! other = default ∅ (mt_Examples mediaType) !! other) /\
        mt_Schema (WithExample name value mediaType) = mt_Schema mediaType) /\
  (forall first second,
      WithExample name second (WithExample name first mediaType)
        = WithExample name second mediaType).
Proof.
  split; [|split].
  - intros enc. unfold encoding_of, to_validator, WithEncoding, index. cbn.
    split; [|split; [|reflexivity]].
    + rewrite lookup_insert_eq. reflexivity.
    + intros other Hne. now rewrite lookup_insert_ne.
  - intros value. eexists. split; [reflexivity|]. split; [|split; [|reflexivity]].
    + apply lookup_insert_eq.
    + intros other Hne. now apply lookup_insert_ne.
  - intros first second. unfold WithExample. cbn. now rewrite insert_insert_eq.
Qed.

(** X20. JSONLookup of a media type after the builders.  The token schema
    gives, after WithSchema(schema), the schema itself, and after
    WithSchemaRef(ref) the path of the reference when it has one, whatever
    its value, and its value otherwise; after WithSchema(nil) the media type
    has no schema and the token is looked up in the extension properties,
    like a token that names no field.  The tokens examples and encoding
    give, after WithExample and WithEncoding, a map that is not nil and
    holds the entry stored.  A token other than schema, example, examples
    and encoding is looked up in the extension properties, which no builder
    changes. *)
Theorem lookup_after_the_builders mediaType :
  (forall schema,
      JSONLookup (WithSchema (Some schema) mediaType) "schema"
        = IsSchema (Some schema)) /\
  JSONLookup (WithSchema None mediaType) "schema"
    = Extension (GetForToken (mt_ExtensionProps mediaType) "schema") /\
  (forall ref,
      JSONLookup (WithSchemaRef (Some ref) mediaType) "schema" =
        if decide (SchemaRef_Ref ref = "") then IsSchema (SchemaRef_Value ref)
        else IsRef (SchemaRef_Ref ref)) /\
  (forall name value,
      exists examples,
        JSONLookup (WithExample name value mediaType) "examples"
          = IsExamples (Some examples) /\
        examples !! name
          = Some (Some {| ExampleRef_Ref := "";
                          ExampleRef_Value := Some (NewExample value) |})) /\
  (forall name enc,
      exists encoding,
        JSONLookup (WithEncoding name enc mediaType) "encoding"
          = IsEncoding (Some encoding) /\
        encoding !! name = Some enc) /\
  (forall token,
      token ∉ ["schema"; "example"; "examples"; "encoding"] ->
      JSONLookup mediaType token
        = Extension (GetForToken (mt_ExtensionProps mediaType) token) /\
      forall schema ref name value enc,
        JSONLookup (WithSchema schema mediaType) token = JSONLookup mediaType token /\
        JSONLookup (WithSchemaRef ref mediaType) token = JSONLookup mediaType token /\
        JSONLookup (WithExample name value mediaType) token
          = JSONLookup mediaType token /\
        JSONLookup (WithEncoding name enc mediaType) token
          = JSONLookup mediaType token).
Proof.
  split; [reflexivity|]. split; [reflexivity|]. split.
  { intros ref. unfold JSONLookup, WithSchemaRef, nonempty. cbn.
    destruct (String.eqb_spec (SchemaRef_Ref ref) "") as [He|He];
      destruct (decide _); cbn; congruence. }
  split.
  { intros name value. eexists. split; [reflexivity|]. apply lookup_insert_eq. }
  split.
  { intros name enc. eexists. split; [reflexivity|]. apply lookup_insert_eq. }
  intros token Hnot. rewrite !not_elem_of_cons in Hnot.
  destruct Hnot as (K1 & K2 & K3 & K4 & _).
  assert (Hext : forall m, JSONLookup m token
                           = Extension (GetForToken (mt_ExtensionProps m) token)).
  { intros m. unfold JSONLookup.
    destruct (String.eqb_spec token "schema"); [contradiction|].
    destruct (String.eqb_spec token "example"); [contradiction|].
    destruct (String.eqb_spec token "examples"); [contradiction|].
    destruct (String.eqb_spec token "encoding"); [contradiction|]. reflexivity. }
  split; [apply Hext|]. intros schema ref name value enc.
  rewrite !Hext. destruct schema; repeat split; reflexivity.
Qed.

End media_properties.

(** * Properties of path_item.go *)

Section path_item_properties.
Import path_item.
Context `{Collaborators} `{!Validators}.

Ltac method_cases :=
  repeat match goal with
    | |- context [String.eqb ?a ?b] => destruct (String.eqb_spec a b); subst; cbn
    end.

(** X17. SetOperation and GetOperation on the nine methods CONNECT, DELETE,
    GET, HEAD, OPTIONS, PATCH, POST, PUT and TRACE: after SetOperation(method,
    operation), GetOperation(method) returns the operation, nil included, and
    GetOperation of every other method returns or panics as before.  On any
    other method name both panic, with the same message, which quotes the
    name. *)
Theorem SetOperation_then_GetOperation pathItem method operation :
  (method ∈ methods ->
   exists after,
     SetOperation pathItem method operation = Returned after /\
     GetOperation after method = Returned operation /\
     forall other, other <> method ->
                   GetOperation after other = GetOperation pathItem other) /\
  (method ∉ methods ->
   SetOperation pathItem method operation
     = Panicked ("unsupported HTTP method " +:+ Quote method) /\
   GetOperation pathItem method
     = Panicked ("unsupported HTTP method " +:+ Quote method)).
Proof.
  unfold methods, MethodConnect, MethodDelete, MethodGet, MethodHead, MethodOptions,
    MethodPatch, MethodPost, MethodPut, MethodTrace.
  rewrite !elem_of_cons, elem_of_nil. split.
  - intros Hin.
    repeat (destruct Hin as [->|Hin]);
      try contradiction;
      (eexists; split; [reflexivity|]; split; [reflexivity|];
       intros other Hother; unfold GetOperation, MethodConnect, MethodDelete,
         MethodGet, MethodHead, MethodOptions, MethodPatch, MethodPost, MethodPut,
         MethodTrace; method_cases; congruence).
  - intros Hout.
    unfold SetOperation, GetOperation, MethodConnect, MethodDelete, MethodGet,
      MethodHead, MethodOptions, MethodPatch, MethodPost, MethodPut, MethodTrace.
    method_cases; try (exfalso; apply Hout; tauto). now split.
Qed.

Lemma lookup_put_ne method v (operations : gmap string (option Operation)) k :
  k <> method -> put method v operations !! k = operations !! k.
Proof. intros Hne. destruct v; [|reflexivity]. now apply lookup_insert_ne. Qed.

Lemma lookup_put_eq method v (operations : gmap string (option Operation)) :
  put method v operations !! method =
    match v with
    | Some _ => Some v
    | None => operations !! method
    end.
Proof. destruct v; [|reflexivity]. apply lookup_insert_eq. Qed.

Lemma Operations_lookup pathItem k :
  Operations pathItem !! k =
    match GetOperation pathItem k with
    | Returned (Some operation) => Some (Some operation)
    | _ => None
    end.
Proof.
  destruct pathItem as [c d g h o pa po pu t].
  unfold Operations, GetOperation, MethodConnect, MethodDelete, MethodGet,
    MethodHead, MethodOptions, MethodPatch, MethodPost, MethodPut, MethodTrace.
  cbn [PathItem_Connect PathItem_Delete PathItem_Get PathItem_Head PathItem_Options
       PathItem_Patch PathItem_Post PathItem_Put PathItem_Trace].
  method_cases;
    repeat first [ rewrite lookup_put_ne by congruence
                 | rewrite lookup_put_eq
                 | match goal with
                   | |- context [match ?v with Some _ => _ | None => _ end] =>
                       is_var v; destruct v
                   end ];
    rewrite ?lookup_empty; reflexivity.
Qed.

Lemma GetOperation_unsupported pathItem method :
  method ∉ methods ->
  GetOperation pathItem method = Panicked ("unsupported HTTP method " +:+ Quote method).
Proof.
  unfold methods, GetOperation, MethodConnect, MethodDelete, MethodGet, MethodHead,
    MethodOptions, MethodPatch, MethodPost, MethodPut, MethodTrace.
  rewrite !elem_of_cons, elem_of_nil. intros Hout.
  method_cases; try (exfalso; apply Hout; tauto). reflexivity.
Qed.

Lemma Operations_keys pathItem method :
  is_Some (Operations pathItem !! method) -> method ∈ methods.
Proof.
  intros [v Hv]. rewrite Operations_lookup in Hv.
  destruct (decide (method ∈ methods)) as [|Hout]; [assumption|].
  rewrite (GetOperation_unsupported _ _ Hout) in Hv. discriminate.
Qed.

Lemma Operations_after_SetOperation pathItem method operation after :
  SetOperation pathItem method operation = Returned after ->
  index (Operations after) method = operation.
Proof.
  unfold index. rewrite Operations_lookup.
  unfold SetOperation, GetOperation, MethodConnect, MethodDelete, MethodGet,
    MethodHead, MethodOptions, MethodPatch, MethodPost, MethodPut, MethodTrace.
  method_cases; try discriminate; intros [= <-]; cbn; now destruct operation.
Qed.

(** X18. The map of Operations holds exactly the operations that are set:
    under each of the nine method names the operation GetOperation returns
    for it, when it is not nil, and nothing else.  It holds no nil entry and
    no key other than the nine, so for another method name it has no entry,
    where GetOperation panics.  After SetOperation(method, operation) the map
    has the operation under the method, and no entry when the operation is
    nil. *)
Theorem Operations_agrees_with_GetOperation pathItem :
  (forall method operation,
      Operations pathItem !! method = Some (Some operation) <->
      GetOperation pathItem method = Returned (Some operation)) /\
  (forall method, Operations pathItem !! method <> Some None) /\
  (forall method, is_Some (Operations pathItem !! method) -> method ∈ methods) /\
  (forall method operation after,
      SetOperation pathItem method operation = Returned after ->
      index (Operations after) method = operation).
Proof.
  split; [|split; [|split]].
  - intros method operation. rewrite Operations_lookup.
    destruct (GetOperation pathItem method) as [[op|]|]; split; congruence.
  - intros method. rewrite Operations_lookup.
    destruct (GetOperation pathItem method) as [[op|]|]; discriminate.
  - apply Operations_keys.
  - apply Operations_after_SetOperation.
Qed.

Lemma methods_sorted : StronglySorted String.le methods.
Proof. repeat constructor. Qed.

Lemma methods_NoDup : NoDup methods.
Proof.
  unfold methods.
  repeat (apply NoDup_cons_2;
          [rewrite ?elem_of_cons, ?elem_of_nil; intuition discriminate|]).
  apply NoDup_nil_2.
Qed.

Lemma StronglySorted_filter_le (P : string -> Prop) `{forall x, Decision (P x)} l :
  StronglySorted String.le l -> StronglySorted String.le (filter P l).
Proof.
  induction 1 as [|x l Hl IH Hx]; [constructor|].
  rewrite filter_cons. destruct (decide (P x)); [|exact IH].
  constructor; [exact IH|].
  rewrite Forall_forall in Hx |- *. intros y Hy.
  apply list_elem_of_filter in Hy as [_ Hy]. now apply Hx.
Qed.

Lemma sorted_methods_of pathItem :
  sort_Strings (map_to_list (Operations pathItem)).*1
    = filter (fun method => is_Some (Operations pathItem !! method)) methods.
Proof.
  apply (Sorted_unique String.le).
  - unfold sort_Strings. apply Sorted_merge_sort; apply _.
  - apply StronglySorted_Sorted, StronglySorted_filter_le, methods_sorted.
  - unfold sort_Strings. rewrite merge_sort_Permutation.
    apply NoDup_Permutation.
    + apply NoDup_fst_map_to_list.
    + apply NoDup_filter, methods_NoDup.
    + intros k. rewrite list_elem_of_filter, list_elem_of_fmap. split.
      * intros ([k' v] & -> & Hin). apply elem_of_map_to_list in Hin. cbn.
        assert (Hsome : is_Some (Operations pathItem !! k')) by now exists v.
        split; [exact Hsome|].
        now apply (Operations_keys pathItem).
      * intros [[v Hv] _]. exists (k, v). split; [reflexivity|].
        now apply elem_of_map_to_list.
Qed.

Lemma validate_operations_filter ctx pathItem l :
  validate_operations ctx (Operations pathItem)
    (filter (fun method => is_Some (Operations pathItem !! method)) l)
  = head (omap (operation_error ctx pathItem) l).
Proof.
  induction l as [|method l IH]; [reflexivity|].
  rewrite filter_cons. cbn [omap list_omap]. unfold operation_error at 1.
  pose proof (Operations_lookup pathItem method) as Hlook.
  destruct (decide (is_Some (Operations pathItem !! method))) as [[v Hv]|Hnone].
  - cbn [validate_operations]. unfold index. rewrite Hv.
    rewrite Hlook in Hv.
    destruct (GetOperation pathItem method) as [[operation|]|]; try discriminate.
    injection Hv as <-.
    destruct (Operation_Validate ctx (Some operation)); [reflexivity|exact IH].
  - destruct (GetOperation pathItem method) as [[operation|]|]; try exact IH.
    exfalso. apply Hnone. rewrite Hlook. now eexists.
Qed.

(** X19. Validate of a path item validates the operations that are set in
    the alphabetical order of their methods, CONNECT, DELETE, GET, HEAD,
    OPTIONS, PATCH, POST, PUT, TRACE, and returns the error of the first that
    does not validate, worded "invalid operation", the method, a colon and
    the error; the operations after it are not validated.  It returns nil
    exactly when every operation that is set validates; a path item with no
    operation validates. *)
Theorem path_item_validates_in_method_order ctx opts pathItem :
  let ctx' := WithValidationOptions ctx opts in
  StronglySorted string_lt methods /\
  Validate ctx opts pathItem = head (omap (operation_error ctx' pathItem) methods) /\
  (Validate ctx opts pathItem = None <->
   forall method operation,
     GetOperation pathItem method = Returned (Some operation) ->
     Operation_Validate ctx' (Some operation) = None).
Proof.
  cbn zeta.
  assert (Hrun : Validate ctx opts pathItem
                 = head (omap (operation_error (WithValidationOptions ctx opts) pathItem)
                              methods)).
  { unfold Validate. rewrite sorted_methods_of. apply validate_operations_filter. }
  split; [|split; [exact Hrun|]].
  { apply sorted_nodup_strict; [|apply methods_NoDup].
    apply StronglySorted_Sorted, methods_sorted. }
  rewrite Hrun. split.
  - intros Hnone method operation Hget.
    destruct (Operation_Validate _ (Some operation)) as [err|] eqn:Herr; [|reflexivity].
    exfalso.
    assert (Hin : method ∈ methods).
    { apply (Operations_keys pathItem). rewrite Operations_lookup, Hget. now eexists. }
    assert (Herror : operation_error (WithValidationOptions ctx opts) pathItem method
                     = Some ("invalid operation " +:+ method +:+ ": " +:+ err)).
    { unfold operation_error. now rewrite Hget, Herr. }
    assert (Hmem : ("invalid operation " +:+ method +:+ ": " +:+ err)
                   ∈ omap (operation_error (WithValidationOptions ctx opts) pathItem)
                          methods).
    { apply list_elem_of_omap. now exists method. }
    destruct (omap _ methods); [now apply elem_of_nil in Hmem|discriminate Hnone].
  - intros Hall.
    destruct (omap _ methods) as [|e rest] eqn:Homap; [reflexivity|]. exfalso.
    assert (Hmem : e ∈ omap (operation_error (WithValidationOptions ctx opts) pathItem)
                            methods).
    { rewrite Homap. now apply elem_of_cons; left. }
    apply list_elem_of_omap in Hmem as (method & _ & Herror).
    unfold operation_error in Herror.
    destruct (GetOperation pathItem method) as [[operation|]|] eqn:Hget;
      try discriminate.
    now rewrite (Hall _ _ Hget) in Herror.
Qed.

End path_item_properties.

(** * Examples *)

Section examples.
Import Example.
#[local] Existing Instance types.
#[local] Existing Instance collaborators.

(** ** The space trimmer of the instance *)

Lemma trim_left_head s a :
  head_char (trim_left s) = Some a -> is_space a = false.
Proof.
  induction s as [|b s IH]; [discriminate|]. cbn [trim_left].
  destruct (is_space b) eqn:Hb; [exact IH|]. now intros [= <-].
Qed.

Lemma trim_right_head s a :
  head_char (trim_right s) = Some a -> head_char s = Some a.
Proof.
  destruct s as [|b s]; [discriminate|]. cbn [trim_right].
  destruct (trim_right s); [|exact id].
  now destruct (is_space b).
Qed.

Lemma trim_right_last s a :
  last_char (trim_right s) = Some a -> is_space a = false.
Proof.
  induction s as [|b s IH]; [discriminate|]. cbn [trim_right].
  destruct (trim_right s) as [|c t].
  - destruct (is_space b) eqn:Hb; [discriminate|]. now intros [= <-].
  - exact IH.
Qed.

Lemma trim_space_trimmed s : trimmed (trim_space s).
Proof.
  unfold trimmed, trim_space. split; intros Hs.
  - apply trim_right_head, trim_left_head in Hs. discriminate Hs.
  - apply trim_right_last in Hs. discriminate Hs.
Qed.

Lemma GET_not_exempt status :
  bool_decide (status ∈ [301; 304; 307; 308]) = false -> ~ exempt "GET" status.
Proof.
  intros Hs [Hm|Hin]; [discriminate Hm|].
  apply bool_decide_eq_false in Hs. contradiction.
Qed.

Lemma resolves_200 header body options :
  @resolves_to types (input operation "GET" 200 header body options) ok.
Proof.
  exists "GET", (Responses operation).
  split; [reflexivity|]. split; [apply GET_not_exempt; reflexivity|].
  split; [reflexivity|]. vm_compute. reflexivity.
Qed.

(** ** C1: the read of the body fails *)

(** C1 fails on the input [broken_body]: the body is a stream that delivers
    one byte and breaks.  ValidateResponse returns BodyReadFailure, and the
    field Body is nil afterwards: it was not repopulated, and there is
    nothing left to read. *)
Lemma read_failure_leaves_body_nil :
  Body broken_body = Some (broken_stream "{") /\
  fst (validate broken_body) =
    Value (Some (failed "failed to read response body" (Some "connection reset"))) /\
  Body (cell (snd (validate broken_body))) = None.
Proof. vm_compute. repeat split; reflexivity. Qed.

(** ** C3: the header checks under MultiError *)

(** C3 fails on the input [bad_rate]: with the option MultiError set, the
    check of the header X-Rate-Limit is made with the option MultiErrors,
    and the HeaderSchemaMismatch carries the aggregate the engine returns
    under that option; without the option it carries the single cause. *)
Lemma multi_error_is_applied_to_a_header :
  MultiError multi_error = true /\
  fst (validate (bad_rate (Some multi_error))) =
    Value (Some (failed ("response header " +:+ quote "X-Rate-Limit"
                         +:+ " doesn't match the schema")
                        (Some "all violations: value is not allowed"))) /\
  last (calls (snd (validate (bad_rate (Some multi_error))))) =
    Some (@Call_VisitJSON types (Some (@Build_Schema types "" ["10"; "20"])) "99"
            [MultiErrors]) /\
  fst (validate (bad_rate None)) =
    Value (Some (failed ("response header " +:+ quote "X-Rate-Limit"
                         +:+ " doesn't match the schema")
                        (Some "value is not allowed"))).
Proof. vm_compute. repeat split; reflexivity. Qed.

(** ** Instances of the theorems *)

(** C2 at the input [teapot]: the table is not empty and holds neither the
    status 418 nor a default entry, and undocumented statuses are errors. *)
Lemma resolver_is_lookup_chain_witness :
  validate teapot =
    (Value (Some (failed "status is not supported" None)), initial teapot).
Proof.
  unfold validate.
  rewrite (resolver_is_lookup_chain teapot "GET" (Responses strict_operation));
    [vm_compute; reflexivity
    |reflexivity
    |apply GET_not_exempt; reflexivity
    |reflexivity].
Defined.

(** C4 at the input [head]: a HEAD request whose route is nil. *)
Lemma eligibility_filter_witness :
  validate head = (Value None, initial head).
Proof.
  apply (proj1 (eligibility_filter "HEAD" 200));
    [left; reflexivity|reflexivity|reflexivity].
Defined.

(** C5 at the input [not_found]: the status 404 resolves through the default
    entry, which was not resolved. *)
Lemma unresolved_response_fails_witness :
  validate not_found =
    (Value (Some (failed "response has not been resolved" None)), initial not_found).
Proof.
  apply (unresolved_response_fails not_found dangling); [|reflexivity].
  exists "GET", (Responses operation).
  split; [reflexivity|]. split; [apply GET_not_exempt; reflexivity|].
  split; [reflexivity|]. vm_compute. reflexivity.
Defined.


(** C7 at the input [bad_rate]: Age passes, X-Rate-Limit does not match, and
    neither X-Trace nor the body, which would not match either, is looked
    at. *)
Lemma headers_in_order_first_failure_aborts_witness :
  validate (bad_rate None) =
    (Value (Some (failed ("response header " +:+ quote "X-Rate-Limit"
                          +:+ " doesn't match the schema")
                         (Some "value is not allowed"))),
     {| cell := bad_rate None;
        calls := [@Call_VisitJSON types (Some (@Build_Schema types "" ["0"; "1"]))
                    "1" [];
                  @Call_VisitJSON types (Some (@Build_Schema types "" ["10"; "20"]))
                    "99" []] |}).
Proof.
  unfold validate. etransitivity.
  - apply (proj2 (proj2 (proj2 (headers_in_order_first_failure_aborts ok_response)))
             (bad_rate None) ok ["Age"] "X-Rate-Limit" ["X-Trace"]
             (Some (failed ("response header " +:+ quote "X-Rate-Limit"
                            +:+ " doesn't match the schema")
                           (Some "value is not allowed")))).
    + apply resolves_200.
    + reflexivity.
    + vm_compute. reflexivity.
    + constructor; [vm_compute; reflexivity|constructor].
    + vm_compute. reflexivity.
  - vm_compute. reflexivity.
Defined.

(** C3, as amended, at the input [bad_rate] with the option MultiError:
    the two header checks made carry the option MultiErrors. *)
Lemma multi_error_reaches_header_checks_witness :
  MultiErrors ∈ @schema_options types (options_of (bad_rate (Some multi_error))) /\
  Forall (@aggregating types) (calls (snd (validate (bad_rate (Some multi_error))))).
Proof.
  pose proof (multi_error_reaches_header_checks (bad_rate (Some multi_error)) eq_refl)
    as (Hin & Hcalls & _).
  split; [exact Hin|exact Hcalls].
Defined.

(** C8 at the input [bad_body]: the schema of the body was declared by the
    reference " #/components/schemas/Pet ", with spaces around it. *)
Lemma body_mismatch_message_witness :
  exists responseRef response contentType schema,
    @resolves_to types bad_body responseRef /\
    ResponseRef_Value responseRef = Some response /\
    index (Content response) "application/json" = Some contentType /\
    MediaType_Schema contentType = Some schema /\
    @getSchemaIdentifier types collaborators (Some schema)
      = Value (@schema_identifier types collaborators schema) /\
    " #/components/schemas/Pet" =
      (if decide (@schema_identifier types collaborators schema = "") then ""
       else " " +:+ @schema_identifier types collaborators schema) /\
    trimmed (@schema_identifier types collaborators schema) /\
    last_char "response body doesn't match schema #/components/schemas/Pet"
      <> Some " "%char.
Proof.
  exact (body_mismatch_message bad_body
           (failed "response body doesn't match schema #/components/schemas/Pet"
                   (Some "all violations: value is not allowed"))
           " #/components/schemas/Pet"
           trim_space_trimmed eq_refl eq_refl).
Defined.

(** C9 at the input [empty_rate]: the header Age passes, the required header
    X-Rate-Limit is present and its value is the empty string. *)
Lemma empty_header_value_is_absent_witness :
  validate empty_rate =
    (Value (Some (failed ("response header " +:+ quote "X-Rate-Limit" +:+ " missing")
                         None)),
     {| cell := empty_rate;
        calls := [@Call_VisitJSON types (Some (@Build_Schema types "" ["0"; "1"]))
                    "1" []] |}).
Proof.
  unfold validate. etransitivity.
  - apply (proj1 empty_header_value_is_absent empty_rate ok ok_response
             ["Age"] "X-Rate-Limit" ["X-Trace"]
             {| HeaderRef_Ref := "";
                HeaderRef_Value :=
                  Some {| Required := true;
                          Header_Schema := Some (enum "" "" ["10"; "20"]) |} |}
             {| Required := true; Header_Schema := Some (enum "" "" ["10"; "20"]) |}
             []).
    + apply resolves_200.
    + reflexivity.
    + vm_compute. reflexivity.
    + constructor; [vm_compute; reflexivity|constructor].
    + vm_compute. reflexivity.
    + reflexivity.
    + vm_compute. reflexivity.
  - vm_compute. reflexivity.
Defined.

End examples.

(** * Examples of the further properties *)

Section further_examples.
Import Example Sample.
#[local] Existing Instance types.
#[local] Existing Instance collaborators.
#[local] Existing Instance validators.

Lemma names_of_ok_response :
  header_names ok_response = ["Age"; "X-Rate-Limit"; "X-Trace"].
Proof. vm_compute. reflexivity. Qed.

Lemma Content_of_ok_response : Content ok_response <> ∅.
Proof. apply map_non_empty_singleton. Qed.

Lemma headers_pass_with_rate_10 header :
  header !! "Age" = None -> header !! "X-Trace" = None ->
  header !! "X-Rate-Limit" = Some ["10"] ->
  Forall (header_passes ok_response header []) (header_names ok_response).
Proof.
  intros Ha Ht Hr. rewrite names_of_ok_response.
  repeat constructor; unfold header_passes, header_verdict, Header_Get; cbn;
    rewrite ?Ha, ?Ht, ?Hr; reflexivity.
Qed.

(** X1 at the input [good]. *)
Lemma accepts_exactly_what_passes_witness : fst (validate good) = Value None.
Proof.
  apply (proj2 (accepts_exactly_what_passes good ok ok_response
                  (resolves_200 _ _ _) eq_refl)).
  split.
  - apply headers_pass_with_rate_10; vm_compute; reflexivity.
  - right; right. eexists. split; [vm_compute; reflexivity|]. right.
    eexists _, _. repeat split; vm_compute; reflexivity.
Defined.




(** X4 at the input [unchecked_body]: the body would not match. *)
Lemma excluded_body_is_never_touched_witness :
  cell (snd (validate unchecked_body)) = unchecked_body.
Proof.
  exact (proj1 (excluded_body_is_never_touched unchecked_body eq_refl)).
Defined.

(** X5 at the input [xml]. *)
Lemma undeclared_content_type_fails_witness :
  fst (validate xml) =
    Value (Some (failed ("response header Content-Type has unexpected value: "
                         +:+ quote "application/xml") None)).
Proof.
  unfold validate.
  rewrite (undeclared_content_type_fails xml ok ok_response (resolves_200 _ _ _) eq_refl).
  - reflexivity.
  - apply headers_pass_with_rate_10; vm_compute; reflexivity.
  - reflexivity.
  - apply Content_of_ok_response.
  - vm_compute. reflexivity.
Defined.

(** X6 at the input [empty_body]. *)
Lemma undecodable_body_fails_witness :
  fst (validate empty_body) =
    Value (Some (failed "failed to decode response body"
                        (Some "unexpected end of input"))) /\
  Body (cell (snd (validate empty_body))) = Some (stream "").
Proof.
  unfold validate.
  rewrite (undecodable_body_fails empty_body ok ok_response
             {| MediaType_Schema := Some (enum " #/components/schemas/Pet " "Pet" ["{}"]);
                MediaType_Encoding := ∅ |}
             (enum " #/components/schemas/Pet " "Pet" ["{}"])
             (stream "") "" "unexpected end of input"
             (resolves_200 _ _ _) eq_refl).
  - split; reflexivity.
  - apply headers_pass_with_rate_10; vm_compute; reflexivity.
  - reflexivity.
  - apply Content_of_ok_response.
  - vm_compute. reflexivity.
  - reflexivity.
  - reflexivity.
  - reflexivity.
  - reflexivity.
Defined.

(** X13 at the media type [with_examples], the validation of examples
    disabled: the example that does not validate and the nil entry go
    unnoticed. *)
Lemma disabled_examples_are_not_validated_witness :
  media.Validate (true : @GoContext types validators) [] (Some with_examples)
    = Returned None.
Proof.
  rewrite (disabled_examples_are_not_validated (true : @GoContext types validators) []
             with_examples
             {| SchemaRef_Ref := ""; SchemaRef_Value := Some pet |} eq_refl eq_refl).
  reflexivity.
Defined.


(** X15 at the schema [pet], whose title has spaces around it. *)
Lemma WithSchema_decides_the_body_check_witness :
  getSchemaIdentifier
    (media.mt_Schema (media.WithSchema (Some pet) media.NewMediaType))
  = Value "Pet".
Proof.
  etransitivity.
  - apply (WithSchema_decides_the_body_check media.NewMediaType).
    vm_compute. reflexivity.
  - vm_compute. reflexivity.
Defined.

End further_examples.
